(** * An SSE client (package sse): connection lifecycle, decode loop, reconnection

    The repository holds two revisions of the event source:
    - [src/unnamed/part_001]: the revision with the [retry] field, the
      lock-guarded [lastEventID] and a constructor that reconnects
      (module [Part001] below);
    - [src/eventsource.go]: the revision whose constructor closes on the first
      failure and whose request carries [Last-Event-ID] (module
      [EventsourceGo] below).
    Both are embedded function by function.  The statements are about
    [Part001], the revision the specification follows (a constructor that
    reconnects, a backoff field, [LastEventID()]); [EventsourceGo] is there
    for comparison.  Goroutines, sleeps, requests and channel operations are
    recorded as a trace of effects; the outcomes of the HTTP attempts and the
    decoded events are inputs. *)

From Stdlib Require Import ZArith Lia Bool List Ascii String.
From stdpp Require Import base decidable option list strings gmap pretty.

Local Open Scope string_scope.
Local Open Scope Z_scope.
Local Open Scope list_scope.

(** ** Shared vocabulary *)

(** [type ReadyState byte]; the constants are [iota - 1] counted from the
    second line of the const block: 0, 1, 2, 3. *)
Inductive ReadyState := Connecting | Open | Closing | Closed.

#[global] Instance ReadyState_eq_dec : EqDecision ReadyState.
Proof. solve_decision. Defined.

Definition ReadyState_byte (s : ReadyState) : Z :=
  match s with Connecting => 0 | Open => 1 | Closing => 2 | Closed => 3 end.

(** Go [error] values.  The code compares them with [==] against the two
    sentinels [ErrContentType] and [io.ErrUnexpectedEOF]; [EOF] is [io.EOF]
    and [ErrOther] stands for every other error value (transport errors,
    wrapped errors, decoder errors).  A nil error is [None]. *)
Inductive error := ErrContentType | ErrUnexpectedEOF | EOF | ErrOther (msg : string).

#[global] Instance error_eq_dec : EqDecision error.
Proof. solve_decision. Defined.

Definition AllowedContentType : string := "text/event-stream".
Definition StatusNoContent : Z := 204.

(** [time.Duration] is an int64 count of nanoseconds. *)
Definition wrap64 (z : Z) : Z := (z + 2^63) mod 2^64 - 2^63.
Definition Millisecond : Z := 1000000.
Definition Second : Z := 1000 * Millisecond.
Definition Duration_mul (a b : Z) : Z := wrap64 (a * b).
Definition defaultRetry : Z := Duration_mul 1 Second.

(** [http.Header], restricted to what the code does with it: [Set] replaces
    the value under a key, [Get] reads it and gives the empty string when the
    key is absent.  Keys are kept as the code spells them (Go stores them in
    canonical letter case; header names are case-insensitive on the wire). *)
Definition Header_Set (k v : string) (h : gmap string string) : gmap string string :=
  <[k := v]> h.
Definition Header_Get (k : string) (h : gmap string string) : string :=
  default "" (h !! k).

(** The effects the code has on its surroundings, in program order. *)
Inductive effect (Ev : Type) :=
| Sleep (dur : Z)
| Request (method url : string) (hdr : gmap string string)
| GoConsume
| BodyClose
| CloseOut
| Send (ev : Ev).
Arguments Sleep {Ev} dur.
Arguments Request {Ev} method url hdr.
Arguments GoConsume {Ev}.
Arguments BodyClose {Ev}.
Arguments CloseOut {Ev}.
Arguments Send {Ev} ev.

(** What a call has done when we stop looking at it: it returned, it panicked
    (close of a closed channel, nil dereference), or it is still inside its
    loop when the scripted server outcomes run out. *)
Inductive outcome (St Ev A : Type) :=
| Returned (a : A) (s : St) (tr : list (effect Ev))
| Panicked (s : St) (tr : list (effect Ev))
| Pending (s : St) (tr : list (effect Ev)).
Arguments Returned {St Ev A} a s tr.
Arguments Panicked {St Ev A} s tr.
Arguments Pending {St Ev A} s tr.

Definition state_of {St Ev A} (o : outcome St Ev A) : St :=
  match o with Returned _ s _ | Panicked s _ | Pending s _ => s end.
Definition trace_of {St Ev A} (o : outcome St Ev A) : list (effect Ev) :=
  match o with Returned _ _ t | Panicked _ t | Pending _ t => t end.
Definition result_of {St Ev A} (o : outcome St Ev A) : option A :=
  match o with Returned a _ _ => Some a | _ => None end.

Definition M (St Ev A : Type) : Type := St -> outcome St Ev A.

Definition prepend {St Ev A} (t : list (effect Ev)) (o : outcome St Ev A) : outcome St Ev A :=
  match o with
  | Returned a s t' => Returned a s (t ++ t')
  | Panicked s t' => Panicked s (t ++ t')
  | Pending s t' => Pending s (t ++ t')
  end.

#[global] Instance M_ret {St Ev} : MRet (M St Ev) :=
  fun A (a : A) s => Returned a s [].
#[global] Instance M_bind {St Ev} : MBind (M St Ev) :=
  fun A B (f : A -> M St Ev B) (m : M St Ev A) s =>
    match m s with
    | Returned a s' t => prepend t (f a s')
    | Panicked s' t => Panicked s' t
    | Pending s' t => Pending s' t
    end.

Definition emit {St Ev} (e : effect Ev) : M St Ev unit := fun s => Returned tt s [e].
Definition read {St Ev} : M St Ev St := fun s => Returned s s [].
Definition update {St Ev} (f : St -> St) : M St Ev unit := fun s => Returned tt (f s) [].
Definition panic {St Ev A} : M St Ev A := fun s => Panicked s [].
Definition pending {St Ev A} : M St Ev A := fun s => Pending s [].

(** [*http.Response]: the status code, the headers, and the body as the
    decoder will see it. *)
Record Response (Dec : Type) := {
  StatusCode : Z;
  Header : gmap string string;
  Body : Dec
}.
Arguments StatusCode {Dec} r.
Arguments Header {Dec} r.
Arguments Body {Dec} r.

(** The outcome of one connection attempt, as the two library calls inside
    [doHttpConnect] report it: [http.NewRequest] fails, [DefaultClient.Do]
    fails (possibly with a response), or [Do] hands back a response. *)
Inductive HttpOutcome (Dec : Type) :=
| NewRequestFails (e : error)
| DoFails (r : option (Response Dec)) (e : error)
| DoReturns (r : Response Dec).
Arguments NewRequestFails {Dec} e.
Arguments DoFails {Dec} r e.
Arguments DoReturns {Dec} r.

(** ** src/unnamed/part_001 *)
Module Part001.

(** Modelled from the spec: the [Event] struct is declared outside src/.
    [consume] reads its fields [retry] (non-negative for a retry directive)
    and [ID]; name and data are the Message fields of the spec.  [retry] is a
    Go [int], 64 bits wide. *)
Record Event := {
  ev_ID : string;
  ev_Name : string;
  ev_Data : string;
  ev_retry : Z
}.

(** Modelled from the spec: the [Decoder] is declared outside src/.  It
    yields the events of the stream, one per [Decode], and then fails with the
    error the stream ends in (end of stream, truncation, transport). *)
Record Decoder := {
  events : list Event;
  ending : error
}.

Definition NewDecoder (body : Decoder) : Decoder := body.

Definition Decode (dec : Decoder) : Decoder * (Event + error) :=
  match events dec with
  | [] => (dec, inr (ending dec))
  | ev :: rest => ({| events := rest; ending := ending dec |}, inl ev)
  end.

(** The [eventSource] struct.  [out] is represented by whether it has been
    closed (what is sent on it goes to the trace); the two mutexes are
    represented by the atomicity of the functions that take them;
    [closeOutOnce] is never assigned or read. *)
Record eventSource := {
  url : string;
  d : option Decoder;
  resp : option (Response Decoder);
  outClosed : bool;
  lastEventID : string;
  readyState : ReadyState;
  retry : Z
}.

Definition with_d (x : option Decoder) (es : eventSource) : eventSource :=
  {| url := url es; d := x; resp := resp es; outClosed := outClosed es;
     lastEventID := lastEventID es; readyState := readyState es; retry := retry es |}.
Definition with_resp (x : option (Response Decoder)) (es : eventSource) : eventSource :=
  {| url := url es; d := d es; resp := x; outClosed := outClosed es;
     lastEventID := lastEventID es; readyState := readyState es; retry := retry es |}.
Definition with_outClosed (x : bool) (es : eventSource) : eventSource :=
  {| url := url es; d := d es; resp := resp es; outClosed := x;
     lastEventID := lastEventID es; readyState := readyState es; retry := retry es |}.
Definition with_lastEventID (x : string) (es : eventSource) : eventSource :=
  {| url := url es; d := d es; resp := resp es; outClosed := outClosed es;
     lastEventID := x; readyState := readyState es; retry := retry es |}.
Definition with_readyState (x : ReadyState) (es : eventSource) : eventSource :=
  {| url := url es; d := d es; resp := resp es; outClosed := outClosed es;
     lastEventID := lastEventID es; readyState := x; retry := retry es |}.
Definition with_retry (x : Z) (es : eventSource) : eventSource :=
  {| url := url es; d := d es; resp := resp es; outClosed := outClosed es;
     lastEventID := lastEventID es; readyState := readyState es; retry := x |}.

Abbreviation Act := (M eventSource Event).

(** [mustReconnect]: the switch on the error first, then the status of the
    last response. *)
Definition mustReconnect (es : eventSource) (err : option error) : bool :=
  match err with
  | Some ErrContentType => false
  | Some ErrUnexpectedEOF => true
  | _ =>
    match resp es with
    | Some r => if bool_decide (StatusCode r = StatusNoContent) then false else true
    | None => true
    end
  end.

Definition URL (es : eventSource) : string := url es.
Definition get_ReadyState (es : eventSource) : ReadyState := readyState es.
Definition LastEventID (es : eventSource) : string := lastEventID es.

(** [setReadyState]: under the lock, nothing happens once the state is
    [Closed]. *)
Definition setReadyState (newState : ReadyState) (es : eventSource) : eventSource :=
  if bool_decide (readyState es = Closed) then es else with_readyState newState es.

Definition setLastEventID (id : string) (es : eventSource) : eventSource :=
  with_lastEventID id es.

(** [acquireClosingRight]: under the lock, claim [Closing] unless the state is
    already [Closed] or [Closing]. *)
Definition acquireClosingRight (es : eventSource) : bool * eventSource :=
  if bool_decide (readyState es = Closed) || bool_decide (readyState es = Closing)
  then (false, es)
  else (true, with_readyState Closing es).

(** [close(es.out)]: closing a closed channel panics. *)
Definition close_out : Act unit := fun es =>
  if outClosed es then Panicked es [] else Returned tt (with_outClosed true es) [CloseOut].

(** [es.out <- ev]: the consumer takes the event; sending on a closed channel
    panics. *)
Definition send_out (ev : Event) : Act unit := fun es =>
  if outClosed es then Panicked es [] else Returned tt es [Send ev].

Definition release_body : Act unit :=
  es ← read;
  match resp es with
  | Some _ => emit BodyClose
  | None => mret tt
  end.

Definition Close : Act unit :=
  ok ← (fun es => Returned (acquireClosingRight es).1 (acquireClosingRight es).2 []);
  if (ok : bool) then
    release_body;;
    close_out;;
    update (setReadyState Closed)
  else mret tt.

(** The headers of the request this revision builds. *)
Definition request_header (es : eventSource) : gmap string string :=
  Header_Set "Cache-Control" "no-store" (Header_Set "Accept" AllowedContentType ∅).

Definition doHttpConnect (o : HttpOutcome Decoder)
  : Act (option (Response Decoder) * option error) :=
  match o with
  | NewRequestFails e => mret (None, Some e)
  | DoFails r e =>
    es ← read;
    emit (Request "GET" (url es) (request_header es));;
    mret (r, Some e)
  | DoReturns r =>
    es ← read;
    emit (Request "GET" (url es) (request_header es));;
    if bool_decide (Header_Get "Content-Type" (Header r) = AllowedContentType)
    then mret (Some r, None)
    else mret (Some r, Some ErrContentType)
  end.

(** [connectOnce]: [es.resp] is assigned whatever the attempt returned, also
    on failure. *)
Definition connectOnce (o : HttpOutcome Decoder) : Act (option error) :=
  re ← doHttpConnect o;
  update (with_resp re.1);;
  match re.2 with
  | Some e => mret (Some e)
  | None =>
    update (setReadyState Open);;
    es ← read;
    match resp es with
    | Some r =>
      update (with_d (Some (NewDecoder (Body r))));;
      emit GoConsume;;
      mret None
    | None => panic
    end
  end.

(** The [for es.mustReconnect(err)] loop of [reconnect]; one scripted outcome
    is used up by each turn. *)
Fixpoint reconnect_loop (script : list (HttpOutcome Decoder)) (err : option error)
  : Act (option error) :=
  es ← read;
  if mustReconnect es err then
    emit (Sleep (retry es));;
    match script with
    | [] => pending
    | o :: rest =>
      err' ← connectOnce o;
      reconnect_loop rest err'
    end
  else mret err.

(** [reconnect]: its named result [err] starts out nil. *)
Definition reconnect (script : list (HttpOutcome Decoder)) : Act (option error) :=
  update (setReadyState Connecting);;
  err ← reconnect_loop script None;
  match err with
  | Some _ => Close;; mret err
  | None => mret err
  end.

Definition connect (script : list (HttpOutcome Decoder)) : Act (option error) :=
  update (setReadyState Connecting);;
  match script with
  | [] => pending
  | o :: rest =>
    err ← connectOnce o;
    match err with
    | Some _ => reconnect rest
    | None => mret err
    end
  end.

Definition new_eventSource (u : string) : eventSource :=
  {| url := u; d := None; resp := None; outClosed := false;
     lastEventID := ""; readyState := Connecting; retry := defaultRetry |}.

Definition NewEventSource (u : string) (script : list (HttpOutcome Decoder))
  : outcome eventSource Event (option error) :=
  connect script (new_eventSource u).

(** One turn of the loop of [consume] for a decoded event. *)
Definition consume_event (ev : Event) : Act unit :=
  if bool_decide (0 <= ev_retry ev) then
    update (with_retry (Duration_mul (ev_retry ev) Millisecond))
  else
    (if bool_decide (ev_ID ev = "") then mret tt
     else update (setLastEventID (ev_ID ev)));;
    send_out ev.

(** The turn of the loop of [consume] in which [Decode] fails. *)
Definition consume_error (err : error) (script : list (HttpOutcome Decoder)) : Act unit :=
  es ← read;
  (if mustReconnect es (Some err) then reconnect script;; mret tt else mret tt);;
  Close.

Fixpoint consume_loop (evs : list Event) (fin : error)
    (script : list (HttpOutcome Decoder)) : Act unit :=
  match evs with
  | ev :: rest =>
    update (with_d (Some {| events := rest; ending := fin |}));;
    consume_event ev;;
    consume_loop rest fin script
  | [] => consume_error fin script
  end.

Definition consume (script : list (HttpOutcome Decoder)) : Act unit :=
  es ← read;
  match d es with
  | Some dec => consume_loop (events dec) (ending dec) script
  | None => panic
  end.

End Part001.

(** ** src/eventsource.go

    [ReadyState] and its constants are declared in another file of this
    revision; the declarations of src/unnamed/part_001 stand for them. *)
Module EventsourceGo.

(** Modelled from the spec: [MessageEvent] is declared outside src/; its three
    fields are those the helpers of the test suite fill in. *)
Record MessageEvent := {
  ev_LastEventID : string;
  ev_Name : string;
  ev_Data : string
}.

(** Modelled from the spec: the [Decoder] is declared outside src/.  It
    yields the messages of the stream, one per [Decode], then fails with the
    error the stream ends in; [Retry] is the delay in milliseconds it
    reports. *)
Record Decoder := {
  events : list MessageEvent;
  ending : error;
  Retry : Z
}.

Definition NewDecoder (body : Decoder) : Decoder := body.

Definition Decode (dec : Decoder) : Decoder * (MessageEvent + error) :=
  match events dec with
  | [] => (dec, inr (ending dec))
  | ev :: rest => ({| events := rest; ending := ending dec; Retry := Retry dec |}, inl ev)
  end.

(** The [EventSource] struct of this revision: no [retry] field, and
    [lastEventID] is a plain field. *)
Record EventSource := {
  url : string;
  lastEventID : string;
  d : option Decoder;
  resp : option (Response Decoder);
  outClosed : bool;
  readyState : ReadyState
}.

Definition with_lastEventID (x : string) (es : EventSource) : EventSource :=
  {| url := url es; lastEventID := x; d := d es; resp := resp es;
     outClosed := outClosed es; readyState := readyState es |}.
Definition with_d (x : option Decoder) (es : EventSource) : EventSource :=
  {| url := url es; lastEventID := lastEventID es; d := x; resp := resp es;
     outClosed := outClosed es; readyState := readyState es |}.
Definition with_resp (x : option (Response Decoder)) (es : EventSource) : EventSource :=
  {| url := url es; lastEventID := lastEventID es; d := d es; resp := x;
     outClosed := outClosed es; readyState := readyState es |}.
Definition with_outClosed (x : bool) (es : EventSource) : EventSource :=
  {| url := url es; lastEventID := lastEventID es; d := d es; resp := resp es;
     outClosed := x; readyState := readyState es |}.
Definition with_readyState (x : ReadyState) (es : EventSource) : EventSource :=
  {| url := url es; lastEventID := lastEventID es; d := d es; resp := resp es;
     outClosed := outClosed es; readyState := x |}.

Abbreviation Act := (M EventSource MessageEvent).

Definition mustReconnect (es : EventSource) (err : option error) : bool :=
  match err with
  | Some ErrContentType => false
  | Some ErrUnexpectedEOF => true
  | _ =>
    match resp es with
    | Some r => if bool_decide (StatusCode r = StatusNoContent) then false else true
    | None => true
    end
  end.

Definition URL (es : EventSource) : string := url es.
Definition get_ReadyState (es : EventSource) : ReadyState := readyState es.

Definition setReadyState (newState : ReadyState) (es : EventSource) : EventSource :=
  if bool_decide (readyState es = Closed) then es else with_readyState newState es.

Definition acquireClosingRight (es : EventSource) : bool * EventSource :=
  if bool_decide (readyState es = Closed) || bool_decide (readyState es = Closing)
  then (false, es)
  else (true, with_readyState Closing es).

Definition close_out : Act unit := fun es =>
  if outClosed es then Panicked es [] else Returned tt (with_outClosed true es) [CloseOut].

Definition send_out (ev : MessageEvent) : Act unit := fun es =>
  if outClosed es then Panicked es [] else Returned tt es [Send ev].

Definition release_body : Act unit :=
  es ← read;
  match resp es with
  | Some _ => emit BodyClose
  | None => mret tt
  end.

Definition Close : Act unit :=
  ok ← (fun es => Returned (acquireClosingRight es).1 (acquireClosingRight es).2 []);
  if (ok : bool) then
    release_body;;
    close_out;;
    update (setReadyState Closed)
  else mret tt.

(** The headers of the request this revision builds: [Last-Event-ID] is set
    when [lastEventID] is not empty. *)
Definition request_header (es : EventSource) : gmap string string :=
  let h := Header_Set "Cache-Control" "no-store" (Header_Set "Accept" AllowedContentType ∅) in
  if bool_decide (lastEventID es = "") then h
  else Header_Set "Last-Event-ID" (lastEventID es) h.

Definition doHTTPConnect (o : HttpOutcome Decoder)
  : Act (option (Response Decoder) * option error) :=
  match o with
  | NewRequestFails e => mret (None, Some e)
  | DoFails r e =>
    es ← read;
    emit (Request "GET" (url es) (request_header es));;
    mret (r, Some e)
  | DoReturns r =>
    es ← read;
    emit (Request "GET" (url es) (request_header es));;
    if bool_decide (Header_Get "Content-Type" (Header r) = AllowedContentType)
    then mret (Some r, None)
    else mret (Some r, Some ErrContentType)
  end.

Definition connectOnce (o : HttpOutcome Decoder) : Act (option error) :=
  re ← doHTTPConnect o;
  update (with_resp re.1);;
  match re.2 with
  | Some e => mret (Some e)
  | None =>
    update (setReadyState Open);;
    es ← read;
    match resp es with
    | Some r =>
      update (with_d (Some (NewDecoder (Body r))));;
      emit GoConsume;;
      mret None
    | None => panic
    end
  end.

(** The loop of [reconnect]; the delay is read from the current decoder at
    every turn. *)
Fixpoint reconnect_loop (script : list (HttpOutcome Decoder)) (err : option error)
  : Act (option error) :=
  es ← read;
  if mustReconnect es err then
    match d es with
    | Some dec =>
      emit (Sleep (Duration_mul (Retry dec) Millisecond));;
      match script with
      | [] => pending
      | o :: rest =>
        err' ← connectOnce o;
        reconnect_loop rest err'
      end
    | None => panic
    end
  else mret err.

Definition reconnect (script : list (HttpOutcome Decoder)) : Act (option error) :=
  update (setReadyState Connecting);;
  err ← reconnect_loop script None;
  match err with
  | Some _ => Close;; mret err
  | None => mret err
  end.

(** [connect] in this revision: one attempt, and [Close] when it fails. *)
Definition connect (script : list (HttpOutcome Decoder)) : Act (option error) :=
  update (setReadyState Connecting);;
  match script with
  | [] => pending
  | o :: _ =>
    err ← connectOnce o;
    match err with
    | Some _ => Close;; mret err
    | None => mret err
    end
  end.

Definition new_EventSource (u : string) : EventSource :=
  {| url := u; lastEventID := ""; d := None; resp := None;
     outClosed := false; readyState := Connecting |}.

Definition NewEventSource (u : string) (script : list (HttpOutcome Decoder))
  : outcome EventSource MessageEvent (option error) :=
  connect script (new_EventSource u).

Definition consume_event (ev : MessageEvent) : Act unit :=
  update (with_lastEventID (ev_LastEventID ev));;
  send_out ev.

Definition consume_error (err : error) (script : list (HttpOutcome Decoder)) : Act unit :=
  es ← read;
  (if mustReconnect es (Some err) then reconnect script;; mret tt else mret tt);;
  Close.

Fixpoint consume_loop (evs : list MessageEvent) (fin : error) (rty : Z)
    (script : list (HttpOutcome Decoder)) : Act unit :=
  match evs with
  | ev :: rest =>
    update (with_d (Some {| events := rest; ending := fin; Retry := rty |}));;
    consume_event ev;;
    consume_loop rest fin rty script
  | [] => consume_error fin script
  end.

Definition consume (script : list (HttpOutcome Decoder)) : Act unit :=
  es ← read;
  match d es with
  | Some dec => consume_loop (events dec) (ending dec) (Retry dec) script
  | None => panic
  end.

End EventsourceGo.

(** ** Goroutines racing through [Close]

    [Close] split at its four statements.  A goroutine takes one of them per
    step; the two functions that hold [readyStateMux] are single steps. *)
Module CloseRace.
Import Part001.

Inductive pc :=
| AtAcquire            (* about to call acquireClosingRight *)
| AtRelease            (* about to test es.resp and close the body *)
| AtCloseOut           (* about to close(es.out) *)
| AtSetClosed          (* about to call setReadyState(Closed) *)
| Finished (tore_down : bool)
| Crashed.

#[global] Instance pc_eq_dec : EqDecision pc.
Proof. solve_decision. Defined.

(** One statement of [Close], run on the shared struct. *)
Definition stmt (p : pc) : Act pc :=
  match p with
  | AtAcquire =>
    ok ← (fun es => Returned (acquireClosingRight es).1 (acquireClosingRight es).2 []);
    mret (if (ok : bool) then AtRelease else Finished false)
  | AtRelease => release_body;; mret AtCloseOut
  | AtCloseOut => close_out;; mret AtSetClosed
  | AtSetClosed => update (setReadyState Closed);; mret (Finished true)
  | Finished b => mret (Finished b)
  | Crashed => mret Crashed
  end.

Record sys := {
  shared : eventSource;
  threads : list pc;
  log : list (effect Event)
}.

(** Goroutine [i] takes its next step (nothing happens when there is no such
    goroutine). *)
Definition sys_step (s : sys) (i : nat) : sys :=
  match threads s !! i with
  | None => s
  | Some p =>
    match stmt p (shared s) with
    | Returned p' es t =>
      {| shared := es; threads := <[i := p']> (threads s); log := log s ++ t |}
    | Panicked es t | Pending es t =>
      {| shared := es; threads := <[i := Crashed]> (threads s); log := log s ++ t |}
    end
  end.

Definition run (sched : list nat) (s : sys) : sys := fold_left sys_step sched s.

(** [n] goroutines, each about to call [Close]. *)
Definition start (n : nat) (es : eventSource) : sys :=
  {| shared := es; threads := replicate n AtAcquire; log := [] |}.


(** What the one teardown does to the struct and to the outside. *)
Definition torn_down (es : eventSource) : eventSource :=
  with_readyState Closed (with_outClosed true (with_readyState Closing es)).
Definition teardown_effects (es : eventSource) : list (effect Event) :=
  match resp es with Some _ => [BodyClose; CloseOut] | None => [CloseOut] end.

End CloseRace.

(** ** Sequences of operations on one event source *)
Module Ops.
Import Part001.

Inductive op :=
| OpSetReadyState (s : ReadyState)
| OpSetLastEventID (id : string)
| OpAcquireClosingRight
| OpClose
| OpConnectOnce (o : HttpOutcome Decoder)
| OpReconnect (script : list (HttpOutcome Decoder))
| OpConnect (script : list (HttpOutcome Decoder))
| OpConsumeEvent (ev : Event)
| OpConsume (script : list (HttpOutcome Decoder))
| OpCloseStmt (p : CloseRace.pc).

(** The struct after the operation, wherever the operation stopped. *)
Definition apply_op (es : eventSource) (o : op) : eventSource :=
  match o with
  | OpSetReadyState s => setReadyState s es
  | OpSetLastEventID id => setLastEventID id es
  | OpAcquireClosingRight => (acquireClosingRight es).2
  | OpClose => state_of (Close es)
  | OpConnectOnce o => state_of (connectOnce o es)
  | OpReconnect script => state_of (reconnect script es)
  | OpConnect script => state_of (connect script es)
  | OpConsumeEvent ev => state_of (consume_event ev es)
  | OpConsume script => state_of (consume script es)
  | OpCloseStmt p => state_of (CloseRace.stmt p es)
  end.

Definition apply_ops (ops : list op) (es : eventSource) : eventSource :=
  fold_left apply_op ops es.

End Ops.

(** ** Vocabulary of the statements *)

(** An action keeps a property of the struct, wherever it stops. *)
Definition preserves {St Ev A} (P : St -> Prop) (m : M St Ev A) : Prop :=
  forall s, P s -> P (state_of (m s)).

(** The status of the last response, when there is one. *)
Definition last_status {Dec} (r : option (Response Dec)) : option Z :=
  StatusCode <$> r.

(** A duration of [n] milliseconds. *)
Definition ms (n : Z) : Z := n * Millisecond.

(** The largest delay in milliseconds that an int64 count of nanoseconds
    holds. *)
Definition max_retry_ms : Z := 9223372036854.




(** No [Close] has begun on the source: the state is neither [Closing] nor
    [Closed] and [out] is open. *)
Definition unclosed (es : Part001.eventSource) : Prop :=
  Part001.readyState es <> Closing /\ Part001.readyState es <> Closed /\
  Part001.outClosed es = false.

(** Every effect of an action satisfies [Q], wherever the action stops. *)
Definition emits_only {St Ev A} (Q : effect Ev -> Prop) (m : M St Ev A) : Prop :=
  forall s, Forall Q (trace_of (m s)).

(** An effect that is not the delivery of a retry directive. *)
Definition not_a_directive (e : effect Part001.Event) : Prop :=
  match e with Send ev => Part001.ev_retry ev < 0 | _ => True end.

(** The id that [LastEventID()] reports after the messages [evs] went through
    the loop, in the words of the spec: the id of the most recent Message
    with a non-empty id, the old value when there is none. *)
Fixpoint last_id (evs : list Part001.Event) (old : string) : string :=
  match evs with
  | [] => old
  | ev :: rest =>
    last_id rest
      (if bool_decide (Part001.ev_retry ev < 0) && negb (bool_decide (Part001.ev_ID ev = ""))
       then Part001.ev_ID ev else old)
  end.




(** ** Concrete inputs *)
Module Sample.
Import Part001.

Definition silent : Decoder := {| events := []; ending := EOF |}.

Definition stream200 : Response Decoder :=
  {| StatusCode := 200; Header := {[ "Content-Type" := "text/event-stream" ]}; Body := silent |}.
Definition plain200 : Response Decoder :=
  {| StatusCode := 200; Header := {[ "Content-Type" := "text/plain" ]}; Body := silent |}.
Definition plain204 : Response Decoder :=
  {| StatusCode := 204; Header := {[ "Content-Type" := "text/plain" ]}; Body := silent |}.
Definition stream204 : Response Decoder :=
  {| StatusCode := 204; Header := {[ "Content-Type" := "text/event-stream" ]}; Body := silent |}.

(** A source whose last response had status 204. *)
Definition after204 : eventSource :=
  with_resp (Some stream204) (new_eventSource "http://example.test/feed").

(** A source that is open on a 200 response. *)
Definition opened : eventSource :=
  with_readyState Open (with_d (Some silent)
    (with_resp (Some stream200) (new_eventSource "http://example.test/feed"))).

(** The message [id: 1 / data: hello] and the directive [retry: 250]. *)
Definition hello : Event :=
  {| ev_ID := "1"; ev_Name := ""; ev_Data := "hello"; ev_retry := -1 |}.
Definition anonymous : Event :=
  {| ev_ID := ""; ev_Name := ""; ev_Data := "again"; ev_retry := -1 |}.
Definition retry250 : Event :=
  {| ev_ID := ""; ev_Name := ""; ev_Data := ""; ev_retry := 250 |}.
(** A directive one millisecond beyond what a [time.Duration] holds. *)
Definition retry_huge : Event :=
  {| ev_ID := ""; ev_Name := ""; ev_Data := ""; ev_retry := 9223372036855 |}.

Definition basic_header : gmap string string :=
  <[ "Cache-Control" := "no-store" ]> (<[ "Accept" := "text/event-stream" ]> ∅).

End Sample.

Module SampleGo.
Import EventsourceGo.

Definition silent : Decoder := {| events := []; ending := EOF; Retry := 1000 |}.

Definition stream200 : Response Decoder :=
  {| StatusCode := 200; Header := {[ "Content-Type" := "text/event-stream" ]}; Body := silent |}.
Definition plain200 : Response Decoder :=
  {| StatusCode := 200; Header := {[ "Content-Type" := "text/plain" ]}; Body := silent |}.

(** A source that delivered a message with id 1. *)
Definition resumed : EventSource :=
  with_lastEventID "1" (new_EventSource "http://example.test/feed").

Definition anonymous : MessageEvent :=
  {| ev_LastEventID := ""; ev_Name := ""; ev_Data := "again" |}.
Definition hello : MessageEvent :=
  {| ev_LastEventID := "1"; ev_Name := ""; ev_Data := "hello" |}.

(** An open source whose stream holds two messages and is then cut. *)
Definition streaming : EventSource :=
  with_readyState Open
    (with_d (Some {| events := [anonymous; hello]; ending := ErrUnexpectedEOF; Retry := 1000 |})
       (with_resp (Some stream200) (new_EventSource "http://example.test/feed"))).

End SampleGo.

(** ** src/unnamed/part_000

    The helpers that write events in wire format.  A Go string is a sequence
    of bytes; [make] panics on a negative length ([None]). *)
Module TestHelpers.
Import EventsourceGo.

(** [retryEvent]: the delay is a Go [int]. *)
Record retryEvent := { delayInMs : Z }.

Definition make_bytes (n : Z) : option (list ascii) :=
  if bool_decide (0 <= n) then Some (replicate (Z.to_nat n) Ascii.zero) else None.

(** The loop [for i := range data { data[i] = 'e' }]. *)
Fixpoint fill_e (indices : list nat) (data : list ascii) : list ascii :=
  match indices with
  | [] => data
  | i :: rest => fill_e rest (<[i := "e"%char]> data)
  end.

Definition newMessageEvent (lastEventID name : string) (dataSize : Z) : option MessageEvent :=
  data ← make_bytes dataSize;
  Some {| ev_LastEventID := lastEventID; ev_Name := name;
          ev_Data := string_of_list_ascii (fill_e (seq 0 (length data)) data) |}.

Definition newRetryEvent (delay : Z) : retryEvent := {| delayInMs := delay |}.

(** [buildString]: the fields are appended to one byte slice, left to
    right. *)
Definition buildString (fields : list string) : string :=
  string_of_list_ascii
    (fold_left (fun data field => data ++ list_ascii_of_string field) fields []).

Definition newline : string := String "010"%char "".

Definition messageEventToString (ev : MessageEvent) : string :=
  let msg := "" in
  let msg :=
    if bool_decide (ev_LastEventID ev = "") then msg
    else buildString ["id: "; ev_LastEventID ev; newline] in
  let msg :=
    if bool_decide (ev_Name ev = "") then msg
    else buildString [msg; "event: "; ev_Name ev; newline] in
  buildString [msg; "data: "; ev_Data ev; newline +:+ newline].

(** [fmt.Sprintf("%d", n)] is the decimal numeral of [n]. *)
Definition Sprintf_d (n : Z) : string := pretty n.

Definition retryEventToString (ev : retryEvent) : string :=
  buildString ["retry: "; Sprintf_d (delayInMs ev); newline].

Definition nl : ascii := "010"%char.

(** A field that fits on one line. *)
Definition one_line (s : string) : Prop := nl ∉ list_ascii_of_string s.

End TestHelpers.

(** ** Vocabulary of the further statements *)

Definition count_where {A} (f : A -> bool) (l : list A) : nat :=
  length (List.filter f l).

Definition is_CloseOut {Ev} (e : effect Ev) : bool :=
  match e with CloseOut => true | _ => false end.
Definition is_BodyClose {Ev} (e : effect Ev) : bool :=
  match e with BodyClose => true | _ => false end.
Definition is_GoConsume {Ev} (e : effect Ev) : bool :=
  match e with GoConsume => true | _ => false end.
Definition is_Send {Ev} (e : effect Ev) : bool :=
  match e with Send _ => true | _ => false end.


(** The Messages among decoded events, and the backoff the directives among
    them leave behind. *)
Definition is_message (ev : Part001.Event) : bool :=
  bool_decide (Part001.ev_retry ev < 0).
Fixpoint last_retry (evs : list Part001.Event) (old : Z) : Z :=
  match evs with
  | [] => old
  | ev :: rest =>
    last_retry rest
      (if is_message ev then old else Duration_mul (Part001.ev_retry ev) Millisecond)
  end.

(** A request as src/unnamed/part_001 builds it for the address [u]. *)
Definition plain_get (u : string) (e : effect Part001.Event) : Prop :=
  match e with
  | Request m u' h =>
    m = "GET" /\ u' = u /\ h !! "Accept" = Some AllowedContentType /\
    h !! "Cache-Control" = Some "no-store" /\ h !! "Last-Event-ID" = None
  | _ => True
  end.

(** The id of the last message of a stream ([old] for an empty stream), as
    src/eventsource.go records it. *)
Definition last_message_id (evs : list EventsourceGo.MessageEvent) (old : string) : string :=
  match last evs with
  | Some ev => EventsourceGo.ev_LastEventID ev
  | None => old
  end.




(** A response that an attempt accepts and that does not stop the loop of
    [reconnect]. *)
Definition keeps_going {Dec} (r : Response Dec) : Prop :=
  Header_Get "Content-Type" (Header r) = AllowedContentType /\
  StatusCode r <> StatusNoContent.

(** Started in a state with [P], an action has only effects with [Q]. *)
Definition emits_from {St Ev A} (P : St -> Prop) (Q : effect Ev -> Prop)
    (m : M St Ev A) : Prop :=
  forall s, P s -> Forall Q (trace_of (m s)).

(** * Theorems *)

Section MonadFacts.
Context {St Ev : Type}.
Implicit Types (s : St) (t : list (effect Ev)).

Lemma state_of_prepend {A} t (o : outcome St Ev A) : state_of (prepend t o) = state_of o.
Proof. by destruct o. Qed.

Lemma trace_of_prepend {A} t (o : outcome St Ev A) : trace_of (prepend t o) = t ++ trace_of o.
Proof. by destruct o. Qed.

Lemma result_of_prepend {A} t (o : outcome St Ev A) : result_of (prepend t o) = result_of o.
Proof. by destruct o. Qed.

Lemma bind_run {A B} (m : M St Ev A) (f : A -> M St Ev B) s :
  (m ≫= f) s =
  match m s with
  | Returned a s' t => prepend t (f a s')
  | Panicked s' t => Panicked s' t
  | Pending s' t => Pending s' t
  end.
Proof. reflexivity. Qed.

Lemma preserves_bind {A B} (P : St -> Prop) (m : M St Ev A) (f : A -> M St Ev B) :
  preserves P m -> (forall a, preserves P (f a)) -> preserves P (m ≫= f).
Proof.
  intros Hm Hf s Hs. rewrite bind_run.
  specialize (Hm s Hs). destruct (m s) as [a s' t|s' t|s' t]; simpl in *; auto.
  rewrite state_of_prepend. by apply Hf.
Qed.

Lemma preserves_ret {A} (P : St -> Prop) (a : A) : preserves P (mret a : M St Ev A).
Proof. by intros s Hs. Qed.

Lemma preserves_read (P : St -> Prop) : preserves P (read : M St Ev St).
Proof. by intros s Hs. Qed.

Lemma preserves_emit (P : St -> Prop) e : preserves P (emit e : M St Ev unit).
Proof. by intros s Hs. Qed.

Lemma preserves_panic {A} (P : St -> Prop) : preserves P (panic : M St Ev A).
Proof. by intros s Hs. Qed.

Lemma preserves_pending {A} (P : St -> Prop) : preserves P (pending : M St Ev A).
Proof. by intros s Hs. Qed.

Lemma preserves_update (P : St -> Prop) (f : St -> St) :
  (forall s, P s -> P (f s)) -> preserves P (update f : M St Ev unit).
Proof. intros Hf s Hs. by apply Hf. Qed.

End MonadFacts.

(** ** The reconnect classification (C1) *)

Import Part001.

Lemma mustReconnect_agree (a : eventSource) (b : EventsourceGo.EventSource) err :
  last_status (resp a) = last_status (EventsourceGo.resp b) ->
  mustReconnect a err = EventsourceGo.mustReconnect b err.
Proof.
  unfold mustReconnect, EventsourceGo.mustReconnect, last_status. intros H.
  destruct err as [[]|]; try done;
    destruct (resp a), (EventsourceGo.resp b); simpl in *; simplify_eq; try done;
    by rewrite H.
Qed.

(** C1, as the code has it: the classification depends on the error and on
    the status of the last response only; a content-type mismatch is terminal;
    an unexpected EOF is retryable, also after a 204; a status 204 is terminal
    for every error other than the unexpected EOF; everything else is
    retryable. *)
Theorem mustReconnect_classification (es : eventSource) (err : option error) :
  (forall es', last_status (resp es') = last_status (resp es) ->
     mustReconnect es' err = mustReconnect es err) /\
  (err = Some ErrContentType -> mustReconnect es err = false) /\
  (err = Some ErrUnexpectedEOF -> mustReconnect es err = true) /\
  (last_status (resp es) = Some StatusNoContent -> err <> Some ErrUnexpectedEOF ->
     mustReconnect es err = false) /\
  (last_status (resp es) <> Some StatusNoContent -> err <> Some ErrContentType ->
     mustReconnect es err = true).
Proof.
  unfold mustReconnect, last_status. repeat split.
  - intros es' H. destruct err as [[]|]; try done;
      destruct (resp es'), (resp es); simpl in *; simplify_eq; try done; by rewrite H.
  - by intros ->.
  - by intros ->.
  - intros H Hne. destruct (resp es) as [r|]; simplify_eq/=.
    destruct err as [[]|]; try done; by rewrite H, bool_decide_eq_true_2.
  - intros H Hne. destruct err as [[]|]; try done;
      destruct (resp es) as [r|]; try done; simpl in *;
      rewrite bool_decide_eq_false_2; try done; congruence.
Qed.

Lemma mustReconnect_classification_witness :
  mustReconnect Sample.after204 (Some EOF) = false /\
  mustReconnect Sample.opened (Some EOF) = true /\
  mustReconnect Sample.opened (Some ErrContentType) = false /\
  mustReconnect Sample.after204 (Some ErrUnexpectedEOF) = true.
Proof.
  destruct (mustReconnect_classification Sample.after204 (Some EOF)) as (_ & _ & _ & H204 & _).
  destruct (mustReconnect_classification Sample.opened (Some EOF)) as (_ & _ & _ & _ & Hother).
  destruct (mustReconnect_classification Sample.opened (Some ErrContentType)) as (_ & Hct & _).
  destruct (mustReconnect_classification Sample.after204 (Some ErrUnexpectedEOF)) as (_ & _ & Heof & _).
  split; [apply H204; [reflexivity | discriminate] |].
  split; [apply Hother; [vm_compute; discriminate | discriminate] |].
  split; [apply Hct; reflexivity | apply Heof; reflexivity].
Defined.

(** C1 as stated fails: after a response with status 204 an unexpected EOF is
    still classified retryable. *)
Lemma status204_not_always_terminal :
  ~ (forall (es : eventSource) (err : option error),
       last_status (resp es) = Some StatusNoContent -> mustReconnect es err = false).
Proof.
  intros H. specialize (H Sample.after204 (Some ErrUnexpectedEOF) eq_refl). discriminate H.
Qed.

(** ** What the connection code leaves alone

    A property of the struct that survives the assignments to [d], [resp] and
    [out] and the two guarded writes of [readyState] survives every function
    of the connection code. *)

Ltac keeps :=
  repeat first
    [ apply preserves_ret | apply preserves_read | apply preserves_emit
    | apply preserves_panic | apply preserves_pending
    | match goal with
      | |- preserves _ (_ ≫= _) => apply preserves_bind; [| intros ?]
      | |- preserves _ (match ?x with _ => _ end) => destruct x
      end ].

Section Keeps.
Variable P : eventSource -> Prop.
Hypothesis P_d : forall x es, P es -> P (with_d x es).
Hypothesis P_resp : forall x es, P es -> P (with_resp x es).
Hypothesis P_out : forall x es, P es -> P (with_outClosed x es).
Hypothesis P_set : forall s es, P es -> P (setReadyState s es).
Hypothesis P_acquire : forall es, P es -> P (acquireClosingRight es).2.

Lemma close_out_keeps : preserves P close_out.
Proof. intros es H. unfold close_out. destruct (outClosed es); simpl; auto. Qed.

Lemma send_out_keeps ev : preserves P (send_out ev).
Proof. intros es H. unfold send_out. by destruct (outClosed es). Qed.

Lemma release_body_keeps : preserves P release_body.
Proof. unfold release_body. keeps. Qed.

Lemma Close_keeps : preserves P Close.
Proof.
  unfold Close. apply preserves_bind.
  - intros es H. simpl. by apply P_acquire.
  - intros []; keeps; auto using release_body_keeps, close_out_keeps.
    apply preserves_update; auto.
Qed.

Lemma doHttpConnect_keeps o : preserves P (doHttpConnect o).
Proof. unfold doHttpConnect. destruct o; keeps. Qed.

Lemma connectOnce_keeps o : preserves P (connectOnce o).
Proof.
  unfold connectOnce. keeps; auto using doHttpConnect_keeps;
    apply preserves_update; auto.
Qed.

Lemma reconnect_loop_keeps script : forall err, preserves P (reconnect_loop script err).
Proof.
  induction script as [|o rest IH]; intros err; simpl; keeps;
    auto using connectOnce_keeps.
Qed.

Lemma reconnect_keeps script : preserves P (reconnect script).
Proof.
  unfold reconnect. keeps; auto using reconnect_loop_keeps, Close_keeps.
  apply preserves_update; auto.
Qed.

Lemma connect_keeps script : preserves P (connect script).
Proof.
  unfold connect. keeps; auto using connectOnce_keeps, reconnect_keeps.
  apply preserves_update; auto.
Qed.

Lemma consume_error_keeps err script : preserves P (consume_error err script).
Proof. unfold consume_error. keeps; auto using reconnect_keeps, Close_keeps. Qed.

Lemma stmt_keeps p : preserves P (CloseRace.stmt p).
Proof.
  destruct p; simpl; keeps; auto using release_body_keeps, close_out_keeps;
    first [ apply preserves_update; by auto
          | intros es H; simpl; by apply P_acquire ].
Qed.

Hypothesis P_retry : forall x es, P es -> P (with_retry x es).
Hypothesis P_id : forall x es, P es -> P (setLastEventID x es).

Lemma consume_event_keeps ev : preserves P (consume_event ev).
Proof.
  unfold consume_event. keeps; auto using send_out_keeps;
    apply preserves_update; auto.
Qed.

Lemma consume_loop_keeps evs fin script : preserves P (consume_loop evs fin script).
Proof.
  induction evs as [|ev rest IH]; simpl; [apply consume_error_keeps|].
  keeps; auto using consume_event_keeps. apply preserves_update; auto.
Qed.

Lemma consume_keeps script : preserves P (consume script).
Proof. unfold consume. keeps; auto using consume_loop_keeps. Qed.

End Keeps.

(** ** [Closed] is absorbing (C6) *)

Definition is_closed (es : eventSource) : Prop := readyState es = Closed.

Lemma setReadyState_closed s es : is_closed es -> setReadyState s es = es.
Proof. unfold is_closed, setReadyState. intros ->. reflexivity. Qed.

Lemma acquireClosingRight_closed es : is_closed es -> acquireClosingRight es = (false, es).
Proof. unfold is_closed, acquireClosingRight. intros ->. reflexivity. Qed.

Lemma apply_op_closed es o : is_closed es -> is_closed (Ops.apply_op es o).
Proof.
  assert (Hs : forall s es, is_closed es -> is_closed (setReadyState s es))
    by (intros ? ? H; by rewrite setReadyState_closed).
  assert (Ha : forall es, is_closed es -> is_closed (acquireClosingRight es).2)
    by (intros ? H; by rewrite acquireClosingRight_closed).
  intros H. destruct o; simpl; auto.
  - by apply Close_keeps.
  - by apply connectOnce_keeps.
  - by apply reconnect_keeps.
  - by apply connect_keeps.
  - by apply consume_event_keeps.
  - by apply consume_keeps.
  - by apply stmt_keeps.
Qed.

(** C6: once [readyState] is [Closed], no sequence of operations (state
    writes, [Close] calls whole or statement by statement, connects,
    reconnects, the decode loop) changes it, and [ReadyState()] keeps
    returning [Closed]. *)
Theorem closed_is_absorbing (ops : list Ops.op) (es : eventSource) :
  readyState es = Closed ->
  get_ReadyState (Ops.apply_ops ops es) = Closed.
Proof.
  unfold Ops.apply_ops, get_ReadyState. revert es.
  induction ops as [|o ops IH]; intros es H; simpl; [done|].
  apply IH. by apply apply_op_closed.
Qed.

Lemma closed_is_absorbing_witness :
  get_ReadyState
    (Ops.apply_ops
       [Ops.OpSetReadyState Open; Ops.OpClose;
        Ops.OpReconnect [DoReturns Sample.stream200; DoReturns Sample.plain200];
        Ops.OpConsume []; Ops.OpCloseStmt CloseRace.AtAcquire]
       (with_readyState Closed Sample.opened)) = Closed.
Proof. apply closed_is_absorbing. reflexivity. Defined.

Lemma EventsourceGo_closed_is_kept s (es : EventsourceGo.EventSource) :
  EventsourceGo.readyState es = Closed ->
  EventsourceGo.setReadyState s es = es /\
  EventsourceGo.acquireClosingRight es = (false, es) /\
  EventsourceGo.Close es = Returned tt es [].
Proof.
  intros H. unfold EventsourceGo.setReadyState, EventsourceGo.Close,
    EventsourceGo.acquireClosingRight.
  rewrite bind_run, H. repeat split; reflexivity.
Qed.

(** ** [Close] (C7, C10) *)

Lemma acquireClosingRight_first es :
  readyState es <> Closing -> readyState es <> Closed ->
  acquireClosingRight es = (true, with_readyState Closing es).
Proof. unfold acquireClosingRight. by destruct (readyState es). Qed.


Lemma Close_first es :
  unclosed es ->
  Close es = Returned tt (CloseRace.torn_down es) (CloseRace.teardown_effects es).
Proof.
  intros (H1 & H2 & H3).
  destruct es as [u dec r closed lid rs rty]; simpl in *; subst closed.
  destruct rs; try done; destruct r; reflexivity.
Qed.


(** C10: on a source that never got a response and on which no [Close] has
    begun, [Close] does not touch the transport, closes [out] once and leaves
    the state [Closed], without panicking. *)
Theorem Close_without_response (es : eventSource) :
  resp es = None ->
  unclosed es ->
  Close es = Returned tt (CloseRace.torn_down es) [CloseOut] /\
  get_ReadyState (state_of (Close es)) = Closed /\
  outClosed (state_of (Close es)) = true.
Proof.
  intros Hr Hu. rewrite (Close_first es Hu).
  unfold CloseRace.teardown_effects. rewrite Hr. by repeat split.
Qed.

Lemma Close_without_response_witness :
  Close (new_eventSource "http://example.test/feed") =
    Returned tt (CloseRace.torn_down (new_eventSource "http://example.test/feed")) [CloseOut] /\
  get_ReadyState (state_of (Close (new_eventSource "http://example.test/feed"))) = Closed /\
  outClosed (state_of (Close (new_eventSource "http://example.test/feed"))) = true.
Proof.
  apply Close_without_response; [reflexivity |].
  repeat split; [discriminate | discriminate].
Defined.

Lemma EventsourceGo_Close_without_response (es : EventsourceGo.EventSource) :
  EventsourceGo.resp es = None ->
  EventsourceGo.readyState es <> Closing ->
  EventsourceGo.readyState es <> Closed ->
  EventsourceGo.outClosed es = false ->
  EventsourceGo.Close es =
    Returned tt
      (EventsourceGo.with_readyState Closed
         (EventsourceGo.with_outClosed true (EventsourceGo.with_readyState Closing es)))
      [CloseOut].
Proof.
  intros Hr H1 H2 H3.
  destruct es as [u lid dec r closed rs]; simpl in *; subst.
  destruct rs; try done; reflexivity.
Qed.

(** [Close] is its four statements run one after the other. *)
Lemma Close_is_its_statements es :
  let whole := Close es in
  let parts :=
    (((CloseRace.stmt CloseRace.AtAcquire ≫= CloseRace.stmt) ≫= CloseRace.stmt)
       ≫= CloseRace.stmt) es in
  state_of whole = state_of parts /\ trace_of whole = trace_of parts /\
  (result_of whole = None <-> result_of parts = None).
Proof.
  destruct es as [u dec r closed lid rs rty].
  destruct rs, closed, r; simpl; repeat split; intros; done.
Qed.

Import CloseRace.










(** The guard of [setReadyState] covers [Closed] only.  A [setReadyState]
    from the reconnection code that lands between the statements of a [Close]
    overwrites [Closing], and a later [Close] then claims the right again and
    panics on the closed channel.  The theorem above is about [Close] calls
    racing each other, where this does not happen. *)
Example Closing_can_be_overwritten :
  let es1 := (acquireClosingRight Sample.opened).2 in
  let es2 := state_of ((release_body ≫= λ _, close_out) es1) in
  let es3 := setReadyState Connecting es2 in
  readyState es1 = Closing /\ readyState es3 = Connecting /\
  Close es3 = Panicked (with_readyState Closing es3) [BodyClose].
Proof. repeat split; reflexivity. Qed.

Example Close_race_sample_complete :
  threads (run [1; 0; 1; 0; 1; 1; 2]%nat (start 3 Sample.opened)) =
    [Finished false; Finished true; Finished false] /\
  log (run [1; 0; 1; 0; 1; 1; 2]%nat (start 3 Sample.opened)) = [BodyClose; CloseOut].
Proof. split; reflexivity. Qed.

(** ** The decode-and-deliver loop (C4, C8) *)

Lemma Duration_mul_ms (n : Z) :
  0 <= n <= max_retry_ms -> Duration_mul n Millisecond = ms n.
Proof.
  unfold Duration_mul, wrap64, ms, max_retry_ms, Millisecond. intros H.
  rewrite Z.mod_small; lia.
Qed.

Lemma consume_event_retry ev es :
  0 <= ev_retry ev ->
  consume_event ev es =
    Returned tt (with_retry (Duration_mul (ev_retry ev) Millisecond) es) [].
Proof.
  intros H. unfold consume_event. by rewrite bool_decide_eq_true_2.
Qed.

Lemma consume_event_message ev es :
  ev_retry ev < 0 ->
  consume_event ev es =
    send_out ev (if bool_decide (ev_ID ev = "") then es else setLastEventID (ev_ID ev) es).
Proof.
  intros H. unfold consume_event. rewrite bool_decide_eq_false_2 by lia.
  rewrite bind_run. destruct (bool_decide (ev_ID ev = "")); simpl;
    by destruct (send_out ev _).
Qed.

(** What the loop of [consume] sends are events without a retry directive. *)
Lemma consume_event_sends ev es e :
  Send e ∈ trace_of (consume_event ev es) -> e = ev /\ ev_retry ev < 0.
Proof.
  destruct (decide (0 <= ev_retry ev)) as [H|H].
  - rewrite consume_event_retry by done. simpl. by intros ?%elem_of_nil.
  - rewrite consume_event_message by lia. unfold send_out.
    destruct (outClosed _); simpl; [by intros ?%elem_of_nil|].
    intros Hin%list_elem_of_singleton. split; [congruence | lia].
Qed.

Section TraceFacts.
Context {St Ev : Type}.
Variable Q : effect Ev -> Prop.

Lemma emits_only_bind {A B} (m : M St Ev A) (f : A -> M St Ev B) :
  emits_only Q m -> (forall a, emits_only Q (f a)) -> emits_only Q (m ≫= f).
Proof.
  intros Hm Hf s. rewrite bind_run. specialize (Hm s).
  destruct (m s) as [a s' t|s' t|s' t]; simpl in *; auto.
  rewrite trace_of_prepend. apply Forall_app. split; [done | apply Hf].
Qed.

Lemma emits_only_silent {A} (m : M St Ev A) :
  (forall s, trace_of (m s) = []) -> emits_only Q m.
Proof. intros H s. rewrite H. constructor. Qed.

Lemma emits_only_emit e : Q e -> emits_only Q (emit e : M St Ev unit).
Proof. intros H s. simpl. by repeat constructor. Qed.

End TraceFacts.

Ltac emits :=
  repeat first
    [ apply emits_only_silent; reflexivity
    | apply emits_only_emit; exact I
    | match goal with
      | |- emits_only _ (_ ≫= _) => apply emits_only_bind; [| intros ?]
      | |- emits_only _ (match ?x with _ => _ end) => destruct x
      end ].

Lemma close_out_emits : emits_only not_a_directive close_out.
Proof. intros es. unfold close_out. destruct (outClosed es); simpl; by repeat constructor. Qed.

Lemma Close_emits : emits_only not_a_directive Close.
Proof. unfold Close, release_body. emits; auto using close_out_emits. Qed.

Lemma connectOnce_emits o : emits_only not_a_directive (connectOnce o).
Proof. unfold connectOnce, doHttpConnect. destruct o; emits. Qed.

Lemma reconnect_loop_emits script :
  forall err, emits_only not_a_directive (reconnect_loop script err).
Proof.
  induction script as [|o rest IH]; intros err; simpl; emits;
    auto using connectOnce_emits.
Qed.

Lemma reconnect_emits script : emits_only not_a_directive (reconnect script).
Proof. unfold reconnect. emits; auto using reconnect_loop_emits, Close_emits. Qed.

Lemma consume_error_emits err script : emits_only not_a_directive (consume_error err script).
Proof. unfold consume_error. emits; auto using reconnect_emits, Close_emits. Qed.

Lemma consume_event_emits ev : emits_only not_a_directive (consume_event ev).
Proof.
  intros es. destruct (decide (0 <= ev_retry ev)) as [H|H].
  - rewrite consume_event_retry by done. constructor.
  - rewrite consume_event_message by lia. unfold send_out.
    destruct (outClosed _); simpl; repeat constructor. simpl. lia.
Qed.

Lemma consume_loop_emits evs fin script :
  emits_only not_a_directive (consume_loop evs fin script).
Proof.
  induction evs as [|ev rest IH]; simpl; [apply consume_error_emits|].
  emits; auto using consume_event_emits.
Qed.

Lemma consume_emits script : emits_only not_a_directive (consume script).
Proof. unfold consume. emits; auto using consume_loop_emits. Qed.

(** C4, as the code has it: an event with a retry directive of [N]
    milliseconds is never sent on [out], neither in its own turn of the loop
    nor anywhere in a run of [consume]; the turn replaces the backoff by a
    value that does not depend on the old one, and that value is exactly [N]
    milliseconds whenever [N] milliseconds fit a [time.Duration]. *)
Theorem retry_directive_overwrites_backoff (ev : Event) (es : eventSource) :
  0 <= ev_retry ev ->
  trace_of (consume_event ev es) = [] /\
  (forall script es', Send ev ∉ trace_of (consume script es')) /\
  (forall old, retry (state_of (consume_event ev (with_retry old es))) =
               retry (state_of (consume_event ev es))) /\
  (ev_retry ev <= max_retry_ms ->
   retry (state_of (consume_event ev es)) = ms (ev_retry ev)).
Proof.
  intros H. split; [|split; [|split]].
  - by rewrite consume_event_retry.
  - intros script es' Hin.
    pose proof (consume_emits script es') as Hall.
    rewrite Forall_forall in Hall. specialize (Hall _ Hin). simpl in Hall. lia.
  - intros old. by rewrite !consume_event_retry.
  - intros Hmax. rewrite consume_event_retry by done. simpl.
    apply Duration_mul_ms. lia.
Qed.

Lemma retry_directive_overwrites_backoff_witness :
  trace_of (consume_event Sample.retry250 Sample.opened) = [] /\
  (forall script es', Send Sample.retry250 ∉ trace_of (consume script es')) /\
  (forall old, retry (state_of (consume_event Sample.retry250 (with_retry old Sample.opened))) =
               retry (state_of (consume_event Sample.retry250 Sample.opened))) /\
  (ev_retry Sample.retry250 <= max_retry_ms ->
   retry (state_of (consume_event Sample.retry250 Sample.opened)) = ms 250).
Proof.
  apply (retry_directive_overwrites_backoff Sample.retry250 Sample.opened).
  simpl. lia.
Defined.

(** C4 as stated fails: a directive of 9223372036855 ms does not leave a
    backoff of 9223372036855 ms, the product in nanoseconds wraps around. *)
Lemma huge_retry_directive_wraps :
  0 <= ev_retry Sample.retry_huge /\
  retry (state_of (consume_event Sample.retry_huge Sample.opened)) = -9223372036854551616 /\
  retry (state_of (consume_event Sample.retry_huge Sample.opened))
    <> ms (ev_retry Sample.retry_huge).
Proof. split; [|split]; vm_compute; congruence. Qed.

Lemma connection_code_keeps_lastEventID (es : eventSource) script err :
  lastEventID (state_of (connect script es)) = lastEventID es /\
  lastEventID (state_of (reconnect script es)) = lastEventID es /\
  lastEventID (state_of (Close es)) = lastEventID es /\
  lastEventID (state_of (consume_error err script es)) = lastEventID es.
Proof.
  set (P := fun s : eventSource => lastEventID s = lastEventID es).
  assert (Hd : forall x s, P s -> P (with_d x s)) by done.
  assert (Hresp : forall x s, P s -> P (with_resp x s)) by done.
  assert (Hout : forall x s, P s -> P (with_outClosed x s)) by done.
  assert (Hset : forall x s, P s -> P (setReadyState x s))
    by (intros x s; unfold setReadyState; by destruct (bool_decide _)).
  assert (Hacq : forall s, P s -> P (acquireClosingRight s).2)
    by (intros s; unfold acquireClosingRight; by destruct (_ || _)).
  repeat split.
  - by apply (connect_keeps P).
  - by apply (reconnect_keeps P).
  - by apply (Close_keeps P).
  - by apply (consume_error_keeps P).
Qed.



(** Over a whole run of the loop on an open channel, [LastEventID()] ends up
    as the spec words it. *)
Lemma consume_loop_lastEventID evs fin script : forall es,
  outClosed es = false ->
  LastEventID (state_of (consume_loop evs fin script es)) = last_id evs (LastEventID es).
Proof.
  induction evs as [|ev rest IH]; intros es Hopen; simpl.
  - unfold LastEventID.
    by destruct (connection_code_keeps_lastEventID es script fin) as (_ & _ & _ & ->).
  - rewrite bind_run. simpl. rewrite state_of_prepend, bind_run.
    set (es1 := with_d _ es).
    destruct (decide (0 <= ev_retry ev)) as [Hr|Hr].
    + rewrite consume_event_retry by done. rewrite state_of_prepend.
      rewrite IH by done. by rewrite bool_decide_eq_false_2 by lia.
    + rewrite consume_event_message by lia. unfold send_out.
      rewrite (bool_decide_eq_true_2 (ev_retry ev < 0)) by lia.
      destruct (bool_decide (ev_ID ev = "")) eqn:Hid; simpl; rewrite Hopen;
        rewrite !state_of_prepend; by rewrite IH.
Qed.

(** ** The backoff interval (C9) *)

Lemma prepend_nil {St Ev A} (o : outcome St Ev A) : prepend [] o = o.
Proof. by destruct o. Qed.




Lemma reconnect_loop_cons o rest err es :
  reconnect_loop (o :: rest) err es =
  if mustReconnect es err
  then prepend [Sleep (retry es)] ((connectOnce o ≫= reconnect_loop rest) es)
  else Returned err es [].
Proof.
  simpl. rewrite bind_run. simpl. rewrite prepend_nil.
  destruct (mustReconnect es err); [|done].
  rewrite bind_run. reflexivity.
Qed.

Lemma reconnect_loop_nil err es :
  reconnect_loop [] err es =
  if mustReconnect es err then Pending es [Sleep (retry es)] else Returned err es [].
Proof. simpl. rewrite bind_run. simpl. by destruct (mustReconnect es err). Qed.



Lemma connection_code_keeps_retry (es : eventSource) script err :
  retry (state_of (connect script es)) = retry es /\
  retry (state_of (reconnect script es)) = retry es /\
  retry (state_of (Close es)) = retry es /\
  retry (state_of (consume_error err script es)) = retry es.
Proof.
  set (P := fun s : eventSource => retry s = retry es).
  assert (Hd : forall x s, P s -> P (with_d x s)) by done.
  assert (Hresp : forall x s, P s -> P (with_resp x s)) by done.
  assert (Hout : forall x s, P s -> P (with_outClosed x s)) by done.
  assert (Hset : forall x s, P s -> P (setReadyState x s))
    by (intros x s; unfold setReadyState; by destruct (bool_decide _)).
  assert (Hacq : forall s, P s -> P (acquireClosingRight s).2)
    by (intros s; unfold acquireClosingRight; by destruct (_ || _)).
  repeat split.
  - by apply (connect_keeps P).
  - by apply (reconnect_keeps P).
  - by apply (Close_keeps P).
  - by apply (consume_error_keeps P).
Qed.


(** ** The constructor and the reconnection loop (C2, C3) *)

(** In src/eventsource.go a first response of the wrong content type ends the
    constructor at once: one request, the teardown, the content-type error,
    the state [Closed]. *)
Lemma EventsourceGo_mismatch_closes_at_once u (r : Response EventsourceGo.Decoder) rest :
  Header_Get "Content-Type" (Header r) <> AllowedContentType ->
  let o := EventsourceGo.NewEventSource u (DoReturns r :: rest) in
  result_of o = Some (Some ErrContentType) /\
  trace_of o =
    [Request "GET" u (EventsourceGo.request_header (EventsourceGo.new_EventSource u));
     BodyClose; CloseOut] /\
  EventsourceGo.get_ReadyState (state_of o) = Closed.
Proof.
  intros H. unfold EventsourceGo.NewEventSource, EventsourceGo.connect,
    EventsourceGo.connectOnce, EventsourceGo.doHTTPConnect.
  rewrite !bind_run. simpl. rewrite bool_decide_eq_false_2 by done.
  repeat split; reflexivity.
Qed.

(** Called with a nil error after a response whose status is not 204, the
    loop of [reconnect] takes a turn: it sleeps the backoff before anything
    else.  This is the situation at the start of [reconnect] and after every
    successful attempt. *)
Lemma reconnect_loop_turns_on_nil script es :
  last_status (resp es) <> Some StatusNoContent ->
  exists rest_of_run : outcome eventSource Event (option error),
    reconnect_loop script None es = prepend [Sleep (retry es)] rest_of_run.
Proof.
  intros H.
  assert (Hm : mustReconnect es None = true).
  { unfold mustReconnect. unfold last_status in H.
    destruct (resp es) as [r|]; [|done]. simpl in H.
    rewrite bool_decide_eq_false_2; [done | congruence]. }
  destruct script as [|o rest].
  - rewrite reconnect_loop_nil, Hm. by exists (Pending es []).
  - rewrite reconnect_loop_cons, Hm. eauto.
Qed.

(** In src/unnamed/part_001 every first response of the wrong content type
    with a status other than 204 is followed by a sleep of the default
    backoff, not by the return of the constructor. *)
Lemma mismatch_is_followed_by_sleep u (r : Response Decoder) rest :
  Header_Get "Content-Type" (Header r) <> AllowedContentType ->
  StatusCode r <> StatusNoContent ->
  exists rest_of_run : outcome eventSource Event (option error),
    NewEventSource u (DoReturns r :: rest) =
    prepend [Request "GET" u Sample.basic_header; Sleep (ms 1000)] rest_of_run.
Proof.
  intros Hct Hst.
  unfold NewEventSource, connect. rewrite bind_run. simpl. rewrite prepend_nil.
  change (setReadyState Connecting (new_eventSource u)) with (new_eventSource u).
  rewrite bind_run.
  assert (Hfirst : connectOnce (DoReturns r) (new_eventSource u) =
            Returned (Some ErrContentType) (with_resp (Some r) (new_eventSource u))
              [Request "GET" u Sample.basic_header]).
  { unfold connectOnce, doHttpConnect. rewrite !bind_run. simpl.
    rewrite bool_decide_eq_false_2 by done. reflexivity. }
  rewrite Hfirst. unfold reconnect. rewrite bind_run. simpl. rewrite prepend_nil, bind_run.
  set (es := setReadyState Connecting (with_resp (Some r) (new_eventSource u))).
  destruct (reconnect_loop_turns_on_nil rest es) as [o Ho].
  { unfold es. simpl. congruence. }
  rewrite Ho. change (retry es) with (ms 1000).
  destruct o as [e s t|s t|s t]; simpl.
  - set (k := match e with Some _ => _ | None => _ end).
    exists (prepend t (k s)). by destruct (k s).
  - by exists (Panicked s t).
  - by exists (Pending s t).
Qed.

(** C2 fails on src/unnamed/part_001.  [reconnect] starts from a nil error,
    so after a first response of the wrong content type (status other than
    204) the constructor sleeps the backoff and connects again: with two such
    responses it returns the error only after the second request; when the
    second response is accepted it returns no error and the state is [Open];
    when the scripted responses end it is found asleep before the next
    attempt; and a first response of the wrong content type with status 204
    makes it return no error with the state still [Connecting]. *)
Theorem content_type_mismatch_is_retried :
  let u := "http://example.test/feed" in
  let twice := NewEventSource u [DoReturns Sample.plain200; DoReturns Sample.plain200] in
  let recovered := NewEventSource u [DoReturns Sample.plain200; DoReturns Sample.stream204] in
  let once := NewEventSource u [DoReturns Sample.plain200] in
  let stopped := NewEventSource u [DoReturns Sample.plain204] in
  (result_of twice = Some (Some ErrContentType) /\
   trace_of twice =
     [Request "GET" u Sample.basic_header; Sleep (ms 1000);
      Request "GET" u Sample.basic_header; BodyClose; CloseOut] /\
   get_ReadyState (state_of twice) = Closed) /\
  (result_of recovered = Some None /\
   trace_of recovered =
     [Request "GET" u Sample.basic_header; Sleep (ms 1000);
      Request "GET" u Sample.basic_header; GoConsume] /\
   get_ReadyState (state_of recovered) = Open) /\
  (result_of once = None /\
   trace_of once = [Request "GET" u Sample.basic_header; Sleep (ms 1000)]) /\
  (result_of stopped = Some None /\
   trace_of stopped = [Request "GET" u Sample.basic_header] /\
   get_ReadyState (state_of stopped) = Connecting).
Proof. repeat split; vm_compute; reflexivity. Qed.

(** The loop of [reconnect] returns only on a terminal classification: with
    the content-type error, or after a response with status 204. *)
Lemma reconnect_loop_returns_terminal script : forall err es e es' t,
  reconnect_loop script err es = Returned e es' t ->
  mustReconnect es' e = false.
Proof.
  induction script as [|o rest IH]; intros err es e es' t.
  - rewrite reconnect_loop_nil. destruct (mustReconnect es err) eqn:Hm; [done|].
    intros [= <- <- <-]. done.
  - rewrite reconnect_loop_cons. destruct (mustReconnect es err) eqn:Hm;
      [|intros [= <- <- <-]; done].
    rewrite bind_run. destruct (connectOnce o es) as [e1 es1 t1|es1 t1|es1 t1]; [|done..].
    destruct (reconnect_loop rest e1 es1) as [e2 es2 t2|es2 t2|es2 t2] eqn:Hl; [|done..].
    simpl. intros [= <- <- <-]. by eapply IH.
Qed.

(** C3 fails on src/unnamed/part_001.  After a first attempt that fails with
    a transport error the constructor does enter the loop and sleeps 1000 ms
    before each attempt, but a successful attempt does not end the loop: with
    a second attempt that succeeds (status 200) the constructor is found
    asleep before a third one, and when the third response has the wrong
    content type it tears the source down and returns the content-type
    error. *)
Theorem successful_attempt_does_not_end_loop :
  let u := "http://example.test/feed" in
  let dial := DoFails None (ErrOther "dial tcp: connection refused") in
  let two := NewEventSource u [dial; DoReturns Sample.stream200] in
  let three := NewEventSource u [dial; DoReturns Sample.stream200; DoReturns Sample.plain200] in
  (result_of two = None /\
   trace_of two =
     [Request "GET" u Sample.basic_header; Sleep (ms 1000);
      Request "GET" u Sample.basic_header; GoConsume; Sleep (ms 1000)] /\
   get_ReadyState (state_of two) = Open) /\
  (result_of three = Some (Some ErrContentType) /\
   trace_of three =
     [Request "GET" u Sample.basic_header; Sleep (ms 1000);
      Request "GET" u Sample.basic_header; GoConsume; Sleep (ms 1000);
      Request "GET" u Sample.basic_header; BodyClose; CloseOut] /\
   get_ReadyState (state_of three) = Closed).
Proof. repeat split; vm_compute; reflexivity. Qed.

(** ** The request headers (C5) *)

(** In src/eventsource.go the request carries [Last-Event-ID] exactly when
    [lastEventID] is not empty, with that value. *)
Lemma EventsourceGo_request_carries_lastEventID (es : EventsourceGo.EventSource) o :
  EventsourceGo.request_header es !! "Last-Event-ID" =
    (if bool_decide (EventsourceGo.lastEventID es = "") then None
     else Some (EventsourceGo.lastEventID es)) /\
  EventsourceGo.request_header es !! "Accept" = Some AllowedContentType /\
  EventsourceGo.request_header es !! "Cache-Control" = Some "no-store" /\
  (trace_of (EventsourceGo.doHTTPConnect o es) = [] \/
   trace_of (EventsourceGo.doHTTPConnect o es) =
     [Request "GET" (EventsourceGo.url es) (EventsourceGo.request_header es)]).
Proof.
  split; [|split; [|split]].
  - unfold EventsourceGo.request_header, Header_Set.
    destruct (bool_decide (EventsourceGo.lastEventID es = "")); by simplify_map_eq.
  - unfold EventsourceGo.request_header, Header_Set.
    destruct (bool_decide (EventsourceGo.lastEventID es = "")); by simplify_map_eq.
  - unfold EventsourceGo.request_header, Header_Set.
    destruct (bool_decide (EventsourceGo.lastEventID es = "")); by simplify_map_eq.
  - destruct o as [e|r e|r]; simpl; [by left | by right |].
    destruct (bool_decide (Header_Get "Content-Type" (Header r) = AllowedContentType));
      by right.
Qed.

(** In src/eventsource.go the loop stores the id of every message, empty or
    not. *)
Lemma EventsourceGo_consume_event_lastEventID ev (es : EventsourceGo.EventSource) :
  EventsourceGo.lastEventID (state_of (EventsourceGo.consume_event ev es)) =
  EventsourceGo.ev_LastEventID ev.
Proof.
  unfold EventsourceGo.consume_event, EventsourceGo.send_out. rewrite bind_run. simpl.
  by destruct (EventsourceGo.outClosed es).
Qed.

(** C5 fails on src/unnamed/part_001: whatever [LastEventID()] is, the
    request built by [doHttpConnect] has the two fixed headers and no
    [Last-Event-ID].  After the message [id: 1] and a truncated stream the
    loop reconnects with [LastEventID() = "1"] and a request without the
    header. *)
Theorem request_lacks_Last_Event_ID :
  (forall (es : eventSource) (o : HttpOutcome Decoder),
     request_header es = Sample.basic_header /\
     request_header es !! "Last-Event-ID" = None /\
     (trace_of (doHttpConnect o es) = [] \/
      trace_of (doHttpConnect o es) = [Request "GET" (url es) Sample.basic_header])) /\
  (let es := with_d (Some {| events := [Sample.hello]; ending := ErrUnexpectedEOF |})
               Sample.opened in
   let run := consume [DoReturns Sample.plain200] es in
   LastEventID (state_of run) = "1" /\
   trace_of run =
     [Send Sample.hello; Sleep (ms 1000);
      Request "GET" "http://example.test/feed" Sample.basic_header;
      BodyClose; CloseOut]).
Proof.
  split.
  - intros es o. split; [reflexivity|]. split; [reflexivity|].
    destruct o as [e|r e|r]; simpl; auto.
    destruct (bool_decide (Header_Get "Content-Type" (Header r) = AllowedContentType)); auto.
  - split; vm_compute; reflexivity.
Qed.

(** * Further properties of the code *)

(** ** One connection attempt (src/unnamed/part_001, [connectOnce]) *)

Lemma request_header_basic es : request_header es = Sample.basic_header.
Proof. reflexivity. Qed.

Lemma connectOnce_accepts (r : Response Decoder) es :
  Header_Get "Content-Type" (Header r) = AllowedContentType ->
  connectOnce (DoReturns r) es =
    Returned None
      (with_d (Some (NewDecoder (Body r))) (setReadyState Open (with_resp (Some r) es)))
      [Request "GET" (url es) Sample.basic_header; GoConsume].
Proof.
  intros H. unfold connectOnce, doHttpConnect. rewrite !bind_run. simpl.
  rewrite bool_decide_eq_true_2 by done.
  destruct es as [u dec r0 closed lid rs rty]. by destruct rs.
Qed.

Lemma connectOnce_rejects (r : Response Decoder) es :
  Header_Get "Content-Type" (Header r) <> AllowedContentType ->
  connectOnce (DoReturns r) es =
    Returned (Some ErrContentType) (with_resp (Some r) es)
      [Request "GET" (url es) Sample.basic_header].
Proof.
  intros H. unfold connectOnce, doHttpConnect. rewrite !bind_run. simpl.
  by rewrite bool_decide_eq_false_2 by done.
Qed.

Lemma connectOnce_transport_error r e es :
  connectOnce (DoFails r e) es =
    Returned (Some e) (with_resp r es) [Request "GET" (url es) Sample.basic_header].
Proof. reflexivity. Qed.

Lemma connectOnce_no_request e es :
  connectOnce (NewRequestFails e) es = Returned (Some e) (with_resp None es) [].
Proof. reflexivity. Qed.

(** X1: an attempt succeeds exactly when the server handed back a response
    whose [Content-Type] is the string text/event-stream; neither the status
    code nor the state of the source has a say. *)
Theorem attempt_accepted_iff_content_type (o : HttpOutcome Decoder) (es : eventSource) :
  result_of (connectOnce o es) = Some None <->
  exists r, o = DoReturns r /\ Header_Get "Content-Type" (Header r) = AllowedContentType.
Proof.
  split.
  - destruct o as [e|r e|r]; try done.
    destruct (decide (Header_Get "Content-Type" (Header r) = AllowedContentType)) as [H|H].
    + eauto.
    + by rewrite connectOnce_rejects.
  - intros (r & -> & H). by rewrite connectOnce_accepts.
Qed.

Lemma attempt_accepted_iff_content_type_witness :
  result_of (connectOnce (DoReturns Sample.stream204) Sample.after204) = Some None.
Proof.
  apply (attempt_accepted_iff_content_type (DoReturns Sample.stream204) Sample.after204).
  exists Sample.stream204. split; reflexivity.
Defined.

(** X2: an attempt always returns (no nil response is dereferenced).  It
    starts the decode goroutine exactly when it succeeds, and then the new
    response is stored and a decoder is bound to its body; a failed attempt
    stores whatever response came with the failure and leaves the decoder and
    the ready state as they were. *)
Theorem attempt_starts_decoder_iff_accepted (o : HttpOutcome Decoder) (es : eventSource) :
  exists e es' t,
    connectOnce o es = Returned e es' t /\
    (GoConsume ∈ t <-> e = None) /\
    (e = None ->
     exists r, o = DoReturns r /\ resp es' = Some r /\ d es' = Some (NewDecoder (Body r))) /\
    (e <> None -> d es' = d es /\ readyState es' = readyState es).
Proof.
  destruct o as [e|r e|r].
  - rewrite connectOnce_no_request. eexists _, _, _. split; [done|].
    repeat split; try done. by intros ?%elem_of_nil.
  - rewrite connectOnce_transport_error. eexists _, _, _. split; [done|].
    repeat split; try done. intros Hin. by repeat (apply elem_of_cons in Hin as [?|Hin]; [done|]);
      apply elem_of_nil in Hin.
  - destruct (decide (Header_Get "Content-Type" (Header r) = AllowedContentType)) as [H|H].
    + rewrite connectOnce_accepts by done. eexists _, _, _. split; [done|].
      split; [split; [done | intros _; set_solver]|]. split; [|done].
      intros _. exists r. split; [done|]. split; [|done].
      simpl. unfold setReadyState. by destruct (bool_decide _).
    + rewrite connectOnce_rejects by done. eexists _, _, _. split; [done|].
      repeat split; try done. intros Hin.
      by repeat (apply elem_of_cons in Hin as [?|Hin]; [done|]); apply elem_of_nil in Hin.
Qed.

Lemma attempt_starts_decoder_iff_accepted_witness :
  exists e es' t,
    connectOnce (DoReturns Sample.stream200) Sample.opened = Returned e es' t /\
    (GoConsume ∈ t <-> e = None) /\
    (e = None ->
     exists r, DoReturns Sample.stream200 = DoReturns r /\
               resp es' = Some r /\ d es' = Some (NewDecoder (Body r))) /\
    (e <> None -> d es' = d Sample.opened /\ readyState es' = readyState Sample.opened).
Proof. apply (attempt_starts_decoder_iff_accepted (DoReturns Sample.stream200) Sample.opened). Defined.

(** ** Teardown accounting (src/unnamed/part_001) *)









Lemma unclosed_with_resp x es : unclosed es -> unclosed (with_resp x es).
Proof. done. Qed.









(** ** A run of the decode loop (src/unnamed/part_001, [consume]) *)

Lemma prepend_prepend {St Ev A} (t1 t2 : list (effect Ev)) (o : outcome St Ev A) :
  prepend t1 (prepend t2 o) = prepend (t1 ++ t2) o.
Proof. destruct o; simpl; by rewrite app_assoc. Qed.

(** The loop delivers the Messages of the stream in order and reaches its
    failure turn with the id and the backoff the stream left behind. *)
Lemma consume_loop_run evs fin script : forall es,
  outClosed es = false ->
  exists es1,
    consume_loop evs fin script es =
      prepend (Send <$> List.filter is_message evs) (consume_error fin script es1) /\
    lastEventID es1 = last_id evs (lastEventID es) /\
    retry es1 = last_retry evs (retry es) /\
    readyState es1 = readyState es /\ outClosed es1 = false /\
    resp es1 = resp es /\ url es1 = url es.
Proof.
  induction evs as [|ev rest IH]; intros es Hopen.
  - exists es. simpl. by rewrite prepend_nil.
  - simpl. rewrite bind_run. simpl. rewrite prepend_nil, bind_run.
    set (es0 := with_d _ es). unfold is_message at 1.
    destruct (decide (0 <= ev_retry ev)) as [Hr|Hr].
    + rewrite consume_event_retry by done. rewrite prepend_nil.
      rewrite (bool_decide_eq_false_2 (ev_retry ev < 0)) by lia.
      destruct (IH (with_retry (Duration_mul (ev_retry ev) Millisecond) es0) Hopen)
        as (es1 & -> & Hid & Hrty & Hrs & Hout & Hresp & Hurl).
      exists es1. simpl in Hid, Hrty, Hrs, Hresp, Hurl. simpl. unfold is_message.
      rewrite !(bool_decide_eq_false_2 (ev_retry ev < 0)) by lia. simpl.
      by repeat split.
    + rewrite consume_event_message by lia.
      rewrite (bool_decide_eq_true_2 (ev_retry ev < 0)) by lia.
      set (es0' := if bool_decide (ev_ID ev = "") then es0 else setLastEventID (ev_ID ev) es0).
      assert (Hopen' : outClosed es0' = false)
        by (unfold es0'; by destruct (bool_decide (ev_ID ev = ""))).
      unfold send_out. rewrite Hopen'.
      destruct (IH es0' Hopen') as (es1 & -> & Hid & Hrty & Hrs & Hout & Hresp & Hurl).
      exists es1. rewrite prepend_prepend. split; [done|].
      unfold es0' in *. unfold is_message.
      rewrite (bool_decide_eq_true_2 (ev_retry ev < 0)) by lia. simpl.
      destruct (bool_decide (ev_ID ev = "")); simpl in *; by repeat split.
Qed.

Section Emits.
Variable Q : effect Event -> Prop.
Hypothesis Q_sleep : forall dur, Q (Sleep dur).
Hypothesis Q_request : forall m u h, Q (Request m u h).
Hypothesis Q_go : Q GoConsume.
Hypothesis Q_body : Q BodyClose.
Hypothesis Q_out : Q CloseOut.

Ltac emits_Q :=
  repeat first
    [ apply emits_only_silent; reflexivity
    | apply emits_only_emit; auto
    | match goal with
      | |- emits_only _ (_ ≫= _) => apply emits_only_bind; [| intros ?]
      | |- emits_only _ (match ?x with _ => _ end) => destruct x
      end ].

Lemma Close_emits_Q : emits_only Q Close.
Proof.
  unfold Close, release_body. emits_Q.
  intros es. unfold close_out. destruct (outClosed es); simpl; by repeat constructor.
Qed.

Lemma connectOnce_emits_Q o : emits_only Q (connectOnce o).
Proof. unfold connectOnce, doHttpConnect. destruct o; emits_Q. Qed.

Lemma reconnect_loop_emits_Q script : forall err, emits_only Q (reconnect_loop script err).
Proof.
  induction script as [|o rest IH]; intros err; simpl; emits_Q;
    auto using connectOnce_emits_Q.
Qed.

Lemma reconnect_emits_Q script : emits_only Q (reconnect script).
Proof. unfold reconnect. emits_Q; auto using reconnect_loop_emits_Q, Close_emits_Q. Qed.

Lemma connect_emits_Q script : emits_only Q (connect script).
Proof. unfold connect. emits_Q; auto using connectOnce_emits_Q, reconnect_emits_Q. Qed.

Lemma consume_error_emits_Q err script : emits_only Q (consume_error err script).
Proof. unfold consume_error. emits_Q; auto using reconnect_emits_Q, Close_emits_Q. Qed.

End Emits.

Lemma filter_none {A} (f : A -> bool) (l : list A) :
  Forall (fun x => f x = false) l -> List.filter f l = [].
Proof. induction 1 as [|x l Hx _ IH]; simpl; [done|]. by rewrite Hx. Qed.

Lemma filter_all {A} (f : A -> bool) (l : list A) :
  Forall (fun x => f x = true) l -> List.filter f l = l.
Proof. induction 1 as [|x l Hx _ IH]; simpl; [done|]. by rewrite Hx, IH. Qed.

(** X5: over a run of [consume] on an open channel, what is sent on [out] is
    exactly the Messages of the stream, each once and in stream order; retry
    directives are left out, and nothing is sent once decoding has failed,
    whatever the reconnection does afterwards. *)
Theorem messages_delivered_in_order
    (dec : Decoder) (script : list (HttpOutcome Decoder)) (es : eventSource) :
  d es = Some dec ->
  outClosed es = false ->
  List.filter is_Send (trace_of (consume script es)) =
  Send <$> List.filter is_message (events dec).
Proof.
  intros Hd Hopen. unfold consume. rewrite bind_run. simpl. rewrite Hd, prepend_nil.
  destruct (consume_loop_run (events dec) (ending dec) script es Hopen) as (es1 & -> & _).
  rewrite trace_of_prepend, List.filter_app.
  rewrite (filter_none is_Send (trace_of _)), app_nil_r.
  - apply filter_all. apply Forall_fmap. by apply Forall_true.
  - by apply (consume_error_emits_Q (fun e => is_Send e = false)).
Qed.

Lemma messages_delivered_in_order_witness :
  let es := with_d (Some {| events := [Sample.retry250; Sample.hello; Sample.anonymous];
                            ending := ErrUnexpectedEOF |}) Sample.opened in
  List.filter is_Send (trace_of (consume [DoReturns Sample.plain200] es)) =
  [Send Sample.hello; Send Sample.anonymous].
Proof.
  apply (messages_delivered_in_order
           {| events := [Sample.retry250; Sample.hello; Sample.anonymous];
              ending := ErrUnexpectedEOF |}); reflexivity.
Defined.

(** X6: when a run of [consume] stops, the backoff is the product (in
    int64 nanoseconds) for the last retry directive of the stream, or the old
    backoff when the stream had none: the reconnection and the teardown that
    end the run do not touch it. *)
Theorem last_directive_sets_backoff
    (dec : Decoder) (script : list (HttpOutcome Decoder)) (es : eventSource) :
  d es = Some dec ->
  outClosed es = false ->
  retry (state_of (consume script es)) = last_retry (events dec) (retry es).
Proof.
  intros Hd Hopen. unfold consume. rewrite bind_run. simpl. rewrite Hd, prepend_nil.
  destruct (consume_loop_run (events dec) (ending dec) script es Hopen)
    as (es1 & -> & _ & <- & _).
  rewrite state_of_prepend.
  by destruct (connection_code_keeps_retry es1 script (ending dec)) as (_ & _ & _ & ->).
Qed.

Lemma last_directive_sets_backoff_witness :
  let es := with_d (Some {| events := [Sample.retry250; Sample.hello];
                            ending := ErrUnexpectedEOF |}) Sample.opened in
  retry (state_of (consume [DoReturns Sample.plain200] es)) = ms 250.
Proof.
  apply (last_directive_sets_backoff
           {| events := [Sample.retry250; Sample.hello]; ending := ErrUnexpectedEOF |});
    reflexivity.
Defined.






(** ** The loop of [reconnect] under accepted responses *)

Lemma mustReconnect_nil_true es :
  last_status (resp es) <> Some StatusNoContent -> mustReconnect es None = true.
Proof.
  unfold mustReconnect, last_status. destruct (resp es) as [r|]; [|done]. simpl.
  intros H. rewrite bool_decide_eq_false_2; [done | congruence].
Qed.

(** X8: as long as the responses are accepted with a status other than 204,
    the loop of [reconnect] does not return: for [n] such responses it starts
    [n] decode goroutines, one per response, releases no body, and is found
    asleep before the next attempt. *)
Theorem accepted_responses_keep_looping
    (rs : list (Response Decoder)) (es : eventSource) :
  Forall keeps_going rs ->
  last_status (resp es) <> Some StatusNoContent ->
  exists es' t,
    reconnect_loop (DoReturns <$> rs) None es = Pending es' t /\
    count_where is_GoConsume t = length rs /\
    count_where is_BodyClose t = 0%nat /\
    last t = Some (Sleep (retry es)).
Proof.
  intros Hrs. revert es. induction Hrs as [|r rs [Hct Hst] _ IH]; intros es Hes.
  - rewrite fmap_nil, reconnect_loop_nil, mustReconnect_nil_true by done.
    by eexists _, _.
  - rewrite fmap_cons, reconnect_loop_cons, mustReconnect_nil_true by done.
    rewrite bind_run, connectOnce_accepts by done.
    set (es1 := with_d _ _).
    destruct (IH es1) as (es' & t & -> & Hgo & Hbody & Hlast).
    { unfold es1, last_status, setReadyState. simpl.
      destruct (bool_decide _); simpl; congruence. }
    assert (Hr : retry es1 = retry es).
    { unfold es1, setReadyState. simpl. by destruct (bool_decide _). }
    eexists _, _. split; [reflexivity|].
    simpl. unfold count_where in *. simpl. rewrite Hgo, Hbody.
    repeat split; try done.
    rewrite Hr in Hlast. destruct t; [done|]. done.
Qed.

Lemma accepted_responses_keep_looping_witness :
  exists es' t,
    reconnect_loop (DoReturns <$> [Sample.stream200; Sample.stream200; Sample.stream200])
      None Sample.opened = Pending es' t /\
    count_where is_GoConsume t = 3%nat /\
    count_where is_BodyClose t = 0%nat /\
    last t = Some (Sleep (retry Sample.opened)).
Proof.
  apply (accepted_responses_keep_looping
           [Sample.stream200; Sample.stream200; Sample.stream200] Sample.opened).
  - repeat constructor; discriminate.
  - discriminate.
Defined.

(** ** [Close] after [Close], and [Close] after an overwritten [Closing] *)

(** X9: in whatever state the source is, once a call of [Close] is over
    (also one that panicked) the state is [Closing] or [Closed], and every
    further call of [Close] returns at once, with no effect and no change. *)
Theorem Close_after_Close_is_noop (es : eventSource) :
  let es1 := state_of (Close es) in
  (readyState es1 = Closing \/ readyState es1 = Closed) /\
  Close es1 = Returned tt es1 [].
Proof.
  destruct es as [u dec r closed lid rs rty].
  destruct rs, closed, r; simpl; split; auto.
Qed.

(** X10: a [setReadyState(Connecting)] or [setReadyState(Open)], as the
    connection code issues them, that lands after the [close(es.out)] of a
    running [Close] and before its [setReadyState(Closed)] puts the state back
    from [Closing]; the next [Close] then claims the closing right again and
    panics on the closed channel. *)
Theorem overwritten_Closing_makes_Close_panic (es : eventSource) (s : ReadyState) :
  unclosed es ->
  s = Connecting \/ s = Open ->
  let mid :=
    state_of (((CloseRace.stmt AtAcquire ≫= CloseRace.stmt) ≫= CloseRace.stmt) es) in
  readyState mid = Closing /\ outClosed mid = true /\
  readyState (setReadyState s mid) = s /\
  exists es' t,
    Close (setReadyState s mid) = Panicked es' t /\
    count_where is_CloseOut t = 0%nat.
Proof.
  intros (H1 & H2 & H3) Hs.
  destruct es as [u dec r closed lid rs rty]; simpl in *; subst closed.
  destruct rs; try done; destruct Hs as [-> | ->]; destruct r; simpl;
    repeat split; eexists _, _; split; reflexivity.
Qed.

Lemma overwritten_Closing_makes_Close_panic_witness :
  let mid :=
    state_of (((CloseRace.stmt AtAcquire ≫= CloseRace.stmt) ≫= CloseRace.stmt)
                Sample.opened) in
  readyState mid = Closing /\ outClosed mid = true /\
  readyState (setReadyState Connecting mid) = Connecting /\
  exists es' t,
    Close (setReadyState Connecting mid) = Panicked es' t /\
    count_where is_CloseOut t = 0%nat.
Proof.
  apply (overwritten_Closing_makes_Close_panic Sample.opened Connecting).
  - repeat split; discriminate.
  - by left.
Defined.

(** ** The address and the requests (src/unnamed/part_001) *)

Lemma emits_from_bind {St Ev A B} (P : St -> Prop) (Q : effect Ev -> Prop)
    (m : M St Ev A) (f : A -> M St Ev B) :
  preserves P m -> emits_from P Q m -> (forall a, emits_from P Q (f a)) ->
  emits_from P Q (m ≫= f).
Proof.
  intros Hp Hm Hf s Hs. rewrite bind_run.
  specialize (Hp s Hs). specialize (Hm s Hs).
  destruct (m s) as [a s' t|s' t|s' t]; simpl in *; auto.
  rewrite trace_of_prepend. apply Forall_app. split; [done | by apply Hf].
Qed.

Lemma emits_from_any {St Ev A} (P : St -> Prop) (Q : effect Ev -> Prop) (m : M St Ev A) :
  emits_only Q m -> emits_from P Q m.
Proof. intros H s _. apply H. Qed.

Section Requests.
Variable u : string.
Let at_u (s : eventSource) : Prop := url s = u.

Lemma at_u_d x s : at_u s -> at_u (with_d x s).
Proof. done. Qed.
Lemma at_u_resp x s : at_u s -> at_u (with_resp x s).
Proof. done. Qed.
Lemma at_u_out x s : at_u s -> at_u (with_outClosed x s).
Proof. done. Qed.
Lemma at_u_set x s : at_u s -> at_u (setReadyState x s).
Proof. unfold setReadyState. by destruct (bool_decide _). Qed.
Lemma at_u_acquire s : at_u s -> at_u (acquireClosingRight s).2.
Proof. unfold acquireClosingRight. by destruct (_ || _). Qed.
Lemma at_u_retry x s : at_u s -> at_u (with_retry x s).
Proof. done. Qed.
Lemma at_u_id x s : at_u s -> at_u (setLastEventID x s).
Proof. done. Qed.

Lemma plain_get_others (e : effect Event) :
  (forall m u' h, e <> Request m u' h) -> plain_get u e.
Proof. destruct e; try done. intros H. by destruct (H method url0 hdr). Qed.

Lemma connectOnce_requests o : emits_from at_u (plain_get u) (connectOnce o).
Proof.
  intros s Hs. unfold at_u in Hs.
  assert (Hreq : plain_get u (Request "GET" (url s) Sample.basic_header))
    by (by repeat split).
  destruct o as [e|r e|r].
  - rewrite connectOnce_no_request. constructor.
  - rewrite connectOnce_transport_error. by repeat constructor.
  - destruct (decide (Header_Get "Content-Type" (Header r) = AllowedContentType)).
    + rewrite connectOnce_accepts by done. by repeat constructor.
    + rewrite connectOnce_rejects by done. by repeat constructor.
Qed.

Lemma Close_requests : emits_from at_u (plain_get u) Close.
Proof. apply emits_from_any, Close_emits_Q; done. Qed.

Lemma reconnect_loop_requests script :
  forall err, emits_from at_u (plain_get u) (reconnect_loop script err).
Proof.
  induction script as [|o rest IH]; intros err s Hs.
  - rewrite reconnect_loop_nil. destruct (mustReconnect s err); by repeat constructor.
  - rewrite reconnect_loop_cons. destruct (mustReconnect s err); [|constructor].
    rewrite trace_of_prepend. apply Forall_app. split; [by repeat constructor|].
    refine (emits_from_bind at_u (plain_get u) _ _ _ _ _ s Hs);
      auto using connectOnce_requests.
    apply connectOnce_keeps; auto using at_u_d, at_u_resp, at_u_out, at_u_set, at_u_acquire.
Qed.

Lemma reconnect_requests script : emits_from at_u (plain_get u) (reconnect script).
Proof.
  unfold reconnect. apply emits_from_bind.
  - apply preserves_update. intros s. apply at_u_set.
  - by apply emits_from_any, emits_only_silent.
  - intros _. apply emits_from_bind.
    + apply reconnect_loop_keeps;
        auto using at_u_d, at_u_resp, at_u_out, at_u_set, at_u_acquire.
    + apply reconnect_loop_requests.
    + intros [e|]; [|by apply emits_from_any, emits_only_silent].
      apply emits_from_bind.
      * apply Close_keeps; auto using at_u_out, at_u_set, at_u_acquire.
      * apply Close_requests.
      * intros _. by apply emits_from_any, emits_only_silent.
Qed.

Lemma consume_error_requests err script :
  emits_from at_u (plain_get u) (consume_error err script).
Proof.
  unfold consume_error. apply emits_from_bind.
  - apply preserves_read.
  - by apply emits_from_any, emits_only_silent.
  - intros s. apply emits_from_bind.
    + destruct (mustReconnect s (Some err)); [|apply preserves_ret].
      apply preserves_bind; [|intros ?; apply preserves_ret].
      apply reconnect_keeps; auto using at_u_d, at_u_resp, at_u_out, at_u_set, at_u_acquire.
    + destruct (mustReconnect s (Some err));
        [|by apply emits_from_any, emits_only_silent].
      apply emits_from_bind.
      * apply reconnect_keeps;
          auto using at_u_d, at_u_resp, at_u_out, at_u_set, at_u_acquire.
      * apply reconnect_requests.
      * intros _. by apply emits_from_any, emits_only_silent.
    + intros _. apply Close_requests.
Qed.

Lemma consume_event_requests ev : emits_only (plain_get u) (consume_event ev).
Proof.
  intros s. destruct (decide (0 <= ev_retry ev)) as [H|H].
  - rewrite consume_event_retry by done. constructor.
  - rewrite consume_event_message by lia. unfold send_out.
    destruct (outClosed _); simpl; by repeat constructor.
Qed.

Lemma consume_loop_requests evs fin script :
  emits_from at_u (plain_get u) (consume_loop evs fin script).
Proof.
  induction evs as [|ev rest IH]; simpl; [apply consume_error_requests|].
  apply emits_from_bind.
  - apply preserves_update. intros s. apply at_u_d.
  - by apply emits_from_any, emits_only_silent.
  - intros _. apply emits_from_bind.
    + apply consume_event_keeps;
        auto using at_u_d, at_u_resp, at_u_out, at_u_set, at_u_acquire, at_u_retry, at_u_id.
    + apply emits_from_any, consume_event_requests.
    + intros _. apply IH.
Qed.

Lemma consume_requests script : emits_from at_u (plain_get u) (consume script).
Proof.
  unfold consume. apply emits_from_bind.
  - apply preserves_read.
  - by apply emits_from_any, emits_only_silent.
  - intros s. destruct (d s); [apply consume_loop_requests|].
    by apply emits_from_any, emits_only_silent.
Qed.

Lemma connect_requests script : emits_from at_u (plain_get u) (connect script).
Proof.
  unfold connect. apply emits_from_bind.
  - apply preserves_update. intros s. apply at_u_set.
  - by apply emits_from_any, emits_only_silent.
  - intros _. destruct script as [|o rest];
      [by apply emits_from_any, emits_only_silent|].
    apply emits_from_bind.
    + apply connectOnce_keeps; auto using at_u_d, at_u_resp, at_u_out, at_u_set, at_u_acquire.
    + apply connectOnce_requests.
    + intros [e|]; [apply reconnect_requests | by apply emits_from_any, emits_only_silent].
Qed.

End Requests.

(** X11: the address of a source never changes, whatever is done to it, and
    every request that the constructor, a reconnection or a whole run of the
    decode task issues is a GET to that address with [Accept:
    text/event-stream], [Cache-Control: no-store] and no [Last-Event-ID]. *)
Theorem requests_are_plain_gets_to_URL
    (es : eventSource) (ops : list Ops.op) (script : list (HttpOutcome Decoder)) :
  URL (Ops.apply_ops ops es) = URL es /\
  Forall (plain_get (URL es)) (trace_of (connect script es)) /\
  Forall (plain_get (URL es)) (trace_of (reconnect script es)) /\
  Forall (plain_get (URL es)) (trace_of (consume script es)).
Proof.
  unfold URL. split; [|split; [|split]].
  - unfold Ops.apply_ops. generalize (eq_refl (url es)).
    generalize es at 1 3. induction ops as [|o ops IH]; intros s Hs; simpl; [done|].
    apply IH. set (P := fun x : eventSource => url x = url es).
    assert (Hset : forall x y, P y -> P (setReadyState x y))
      by (intros x y; apply at_u_set).
    assert (Hacq : forall y, P y -> P (acquireClosingRight y).2)
      by (intros y; apply at_u_acquire).
    destruct o; simpl;
      first [ by apply (at_u_set (url es)) | by apply (at_u_acquire (url es)) | done
            | apply (Close_keeps P) | apply (connectOnce_keeps P)
            | apply (reconnect_keeps P) | apply (connect_keeps P)
            | apply (consume_event_keeps P) | apply (consume_keeps P)
            | apply (stmt_keeps P) ];
      done.
  - by apply connect_requests.
  - by apply reconnect_requests.
  - by apply consume_requests.
Qed.

(** ** src/eventsource.go: the constructor and the resumption header *)

(** X12: the constructor of src/eventsource.go makes the first attempt and no
    other: it never sleeps, what the server would answer later is immaterial,
    and it never panics.  When the attempt succeeds it returns nil with the
    state [Open] and the decode goroutine started; when it fails it returns
    the error of the attempt with the state [Closed] and [out] closed
    once. *)
Theorem EventsourceGo_constructor_single_attempt
    (u : string) (o : HttpOutcome EventsourceGo.Decoder)
    (rest : list (HttpOutcome EventsourceGo.Decoder)) :
  EventsourceGo.NewEventSource u (o :: rest) = EventsourceGo.NewEventSource u [o] /\
  match EventsourceGo.NewEventSource u [o] with
  | Returned None es t =>
    EventsourceGo.get_ReadyState es = Open /\ EventsourceGo.outClosed es = false /\
    t = [Request "GET" u (EventsourceGo.request_header (EventsourceGo.new_EventSource u));
         GoConsume]
  | Returned (Some e) es t =>
    EventsourceGo.get_ReadyState es = Closed /\ EventsourceGo.outClosed es = true /\
    count_where is_CloseOut t = 1%nat /\
    Forall (fun x => forall dur, x <> Sleep dur) t /\
    (forall r, o = DoReturns r -> e = ErrContentType) /\
    (forall r e', o = DoFails r e' -> e = e') /\
    (forall e', o = NewRequestFails e' -> e = e')
  | Panicked _ _ | Pending _ _ => False
  end.
Proof.
  split; [reflexivity|].
  unfold EventsourceGo.NewEventSource, EventsourceGo.connect,
    EventsourceGo.connectOnce, EventsourceGo.doHTTPConnect.
  destruct o as [e|r e|r]; rewrite !bind_run; simpl.
  - repeat split; try done; try congruence; by repeat constructor.
  - destruct r; simpl; repeat split; try done; try congruence; by repeat constructor.
  - destruct (bool_decide (Header_Get "Content-Type" (Header r) = AllowedContentType));
      simpl; repeat split; try done; by repeat constructor.
Qed.

Lemma EventsourceGo_constructor_single_attempt_witness :
  EventsourceGo.NewEventSource "http://example.test/feed"
    [DoReturns SampleGo.plain200; DoReturns SampleGo.stream200] =
  EventsourceGo.NewEventSource "http://example.test/feed" [DoReturns SampleGo.plain200].
Proof.
  apply (EventsourceGo_constructor_single_attempt "http://example.test/feed"
           (DoReturns SampleGo.plain200) [DoReturns SampleGo.stream200]).
Defined.

Lemma last_message_id_cons ev evs old :
  last_message_id (ev :: evs) old = last_message_id evs (EventsourceGo.ev_LastEventID ev).
Proof.
  unfold last_message_id. rewrite last_cons. by destruct (last evs).
Qed.

Lemma EventsourceGo_consume_loop_run evs fin rty script : forall es,
  EventsourceGo.outClosed es = false ->
  (exists dec0, EventsourceGo.d es = Some dec0 /\ EventsourceGo.Retry dec0 = rty) ->
  exists es1,
    EventsourceGo.consume_loop evs fin rty script es =
      prepend (Send <$> evs) (EventsourceGo.consume_error fin script es1) /\
    EventsourceGo.lastEventID es1 = last_message_id evs (EventsourceGo.lastEventID es) /\
    EventsourceGo.url es1 = EventsourceGo.url es /\
    EventsourceGo.resp es1 = EventsourceGo.resp es /\
    (exists dec1, EventsourceGo.d es1 = Some dec1 /\ EventsourceGo.Retry dec1 = rty).
Proof.
  induction evs as [|ev rest IH]; intros es Hopen Hd.
  - exists es. simpl. by rewrite prepend_nil.
  - simpl. rewrite bind_run. simpl. rewrite prepend_nil, bind_run.
    unfold EventsourceGo.consume_event at 1. rewrite bind_run. simpl.
    unfold EventsourceGo.send_out at 1. simpl. rewrite Hopen. simpl.
    set (es0 := EventsourceGo.with_lastEventID _ _).
    destruct (IH es0) as (es1 & -> & Hid & Hurl & Hresp & Hdec); [done | by eexists |].
    exists es1. rewrite !prepend_prepend. split; [done|].
    rewrite last_message_id_cons. by repeat split.
Qed.

Lemma EventsourceGo_reconnect_loop_cons o rest err es :
  EventsourceGo.reconnect_loop (o :: rest) err es =
  if EventsourceGo.mustReconnect es err then
    match EventsourceGo.d es with
    | Some dec =>
      prepend [Sleep (Duration_mul (EventsourceGo.Retry dec) Millisecond)]
        ((EventsourceGo.connectOnce o ≫= EventsourceGo.reconnect_loop rest) es)
    | None => Panicked es []
    end
  else Returned err es [].
Proof.
  simpl. rewrite bind_run. simpl. rewrite prepend_nil.
  destruct (EventsourceGo.mustReconnect es err); [|done].
  destruct (EventsourceGo.d es); [|done].
  rewrite bind_run. reflexivity.
Qed.

Lemma EventsourceGo_consume_error_run err script es :
  EventsourceGo.consume_error err script es =
  if EventsourceGo.mustReconnect es (Some err)
  then match EventsourceGo.reconnect script es with
       | Returned _ s' t => prepend t (EventsourceGo.Close s')
       | Panicked s' t => Panicked s' t
       | Pending s' t => Pending s' t
       end
  else EventsourceGo.Close es.
Proof.
  unfold EventsourceGo.consume_error. rewrite bind_run.
  change (read es) with (Returned es es ([] : list (effect EventsourceGo.MessageEvent))).
  cbv beta iota. rewrite prepend_nil, bind_run.
  destruct (EventsourceGo.mustReconnect es (Some err)).
  - rewrite bind_run. destruct (EventsourceGo.reconnect script es); simpl;
      by rewrite ?app_nil_r.
  - simpl. by rewrite prepend_nil.
Qed.

Lemma EventsourceGo_connectOnce_requests o es :
  (forall e, o <> NewRequestFails e) ->
  exists x : outcome EventsourceGo.EventSource EventsourceGo.MessageEvent (option error),
    EventsourceGo.connectOnce o es =
    prepend [Request "GET" (EventsourceGo.url es) (EventsourceGo.request_header es)] x.
Proof.
  intros Ho. unfold EventsourceGo.connectOnce, EventsourceGo.doHTTPConnect.
  destruct o as [e|r e|r]; [by destruct (Ho e)| |]; rewrite !bind_run; simpl.
  - by eexists (Returned _ _ []).
  - destruct (bool_decide (Header_Get "Content-Type" (Header r) = AllowedContentType));
      simpl.
    + match goal with |- context [prepend ?t0 ?y] => exists y end. reflexivity.
    + by eexists (Returned _ _ []).
Qed.

(** X13: in src/eventsource.go, when a stream on an open channel ends in an
    error that calls for a reconnection, everything decoded has been sent in
    order and the first request of the reconnection follows a sleep of the
    decoder's delay and carries [Last-Event-ID] with the id of the last
    message sent; it carries none when that id is empty (or, with nothing
    decoded, when the stored id is). *)
Theorem EventsourceGo_reconnect_resumes_from_last_message
    (dec : EventsourceGo.Decoder) (es : EventsourceGo.EventSource)
    (o : HttpOutcome EventsourceGo.Decoder) (rest : list (HttpOutcome EventsourceGo.Decoder)) :
  EventsourceGo.d es = Some dec ->
  EventsourceGo.outClosed es = false ->
  EventsourceGo.mustReconnect es (Some (EventsourceGo.ending dec)) = true ->
  EventsourceGo.mustReconnect es None = true ->
  (forall e, o <> NewRequestFails e) ->
  let id := last_message_id (EventsourceGo.events dec) (EventsourceGo.lastEventID es) in
  exists h tail,
    trace_of (EventsourceGo.consume (o :: rest) es) =
      (Send <$> EventsourceGo.events dec) ++
      Sleep (Duration_mul (EventsourceGo.Retry dec) Millisecond) ::
      Request "GET" (EventsourceGo.url es) h :: tail /\
    h !! "Last-Event-ID" = (if bool_decide (id = "") then None else Some id).
Proof.
  intros Hd Hopen Hfin Hnil Ho id.
  unfold EventsourceGo.consume. rewrite bind_run. simpl. rewrite Hd, prepend_nil.
  destruct (EventsourceGo_consume_loop_run (EventsourceGo.events dec)
              (EventsourceGo.ending dec) (EventsourceGo.Retry dec) (o :: rest) es Hopen)
    as (es1 & -> & Hid & Hurl & Hresp & dec1 & Hd1 & Hrty); [by eexists|].
  fold id in Hid.
  assert (Hm : forall err, EventsourceGo.mustReconnect es1 err =
                           EventsourceGo.mustReconnect es err)
    by (intros err; unfold EventsourceGo.mustReconnect; by rewrite Hresp).
  set (es2 := EventsourceGo.setReadyState Connecting es1).
  assert (H2 : EventsourceGo.resp es2 = EventsourceGo.resp es /\
               EventsourceGo.d es2 = Some dec1 /\
               EventsourceGo.url es2 = EventsourceGo.url es /\
               EventsourceGo.lastEventID es2 = id).
  { unfold es2, EventsourceGo.setReadyState. by destruct (bool_decide _). }
  destruct H2 as (Hresp2 & Hd2 & Hurl2 & Hid2).
  assert (Hm2 : EventsourceGo.mustReconnect es2 None = true)
    by (rewrite <- Hnil; unfold EventsourceGo.mustReconnect; by rewrite Hresp2).
  exists (EventsourceGo.request_header es2).
  destruct (EventsourceGo_request_carries_lastEventID es2 o) as (Hh & _).
  rewrite Hid2 in Hh.
  destruct (EventsourceGo_connectOnce_requests o es2 Ho) as [x Hx].
  assert (Hrun : exists tail,
            trace_of (EventsourceGo.consume_error (EventsourceGo.ending dec) (o :: rest) es1) =
            Sleep (Duration_mul (EventsourceGo.Retry dec) Millisecond) ::
            Request "GET" (EventsourceGo.url es) (EventsourceGo.request_header es2) :: tail).
  { rewrite EventsourceGo_consume_error_run, Hm, Hfin.
    unfold EventsourceGo.reconnect. rewrite bind_run.
    change (update (EventsourceGo.setReadyState Connecting) es1)
      with (Returned tt es2 ([] : list (effect EventsourceGo.MessageEvent))).
    cbv beta iota. rewrite prepend_nil, bind_run.
    rewrite EventsourceGo_reconnect_loop_cons, Hm2, Hd2, Hrty, bind_run, Hx, Hurl2.
    destruct x as [a s t|s t|s t]; simpl; [|eauto..].
    destruct (EventsourceGo.reconnect_loop rest a s) as [a' s' t'|s' t'|s' t']; simpl;
      [|eauto..].
    destruct a'; simpl; [|destruct (EventsourceGo.Close s'); simpl; eauto].
    rewrite bind_run.
    destruct (EventsourceGo.Close s'); simpl; [|eauto..].
    destruct (EventsourceGo.Close _); simpl; eauto. }
  destruct Hrun as [tail Htail]. exists tail. split; [|done].
  by rewrite trace_of_prepend, Htail.
Qed.

Lemma EventsourceGo_reconnect_resumes_from_last_message_witness :
  exists h tail,
    trace_of (EventsourceGo.consume [DoReturns SampleGo.stream200] SampleGo.streaming) =
      (Send <$> [SampleGo.anonymous; SampleGo.hello]) ++
      Sleep (Duration_mul 1000 Millisecond) ::
      Request "GET" "http://example.test/feed" h :: tail /\
    h !! "Last-Event-ID" = Some "1".
Proof.
  apply (EventsourceGo_reconnect_resumes_from_last_message
           {| EventsourceGo.events := [SampleGo.anonymous; SampleGo.hello];
              EventsourceGo.ending := ErrUnexpectedEOF; EventsourceGo.Retry := 1000 |}
           SampleGo.streaming (DoReturns SampleGo.stream200) []);
    try reflexivity.
  intros e. discriminate.
Defined.

(** ** The wire format helpers (src/unnamed/part_000) *)

Import TestHelpers.

Lemma bytes_app (a b : string) :
  list_ascii_of_string (a +:+ b) = list_ascii_of_string a ++ list_ascii_of_string b.
Proof. induction a as [|c a IH]; simpl; [done|]. by rewrite IH. Qed.

Lemma bytes_inj (a b : string) :
  list_ascii_of_string a = list_ascii_of_string b -> a = b.
Proof.
  intros H. rewrite <- (string_of_list_ascii_of_string a),
    <- (string_of_list_ascii_of_string b). by rewrite H.
Qed.

Lemma bytes_length (a : string) : length (list_ascii_of_string a) = String.length a.
Proof. induction a as [|c a IH]; simpl; [done|]. by rewrite IH. Qed.

Lemma buildString_bytes (fields : list string) :
  list_ascii_of_string (buildString fields) =
  concat (list_ascii_of_string <$> fields).
Proof.
  unfold buildString. rewrite list_ascii_of_string_of_list_ascii.
  assert (H : forall acc, fold_left (fun data field => data ++ list_ascii_of_string field)
                            fields acc
                          = acc ++ concat (list_ascii_of_string <$> fields)).
  { induction fields as [|f fields IH]; intros acc; simpl.
    - by rewrite app_nil_r.
    - by rewrite IH, app_assoc. }
  apply H.
Qed.

(** X14: [buildString] is concatenation in the order of its arguments: the
    result of an inner call can be spliced in as a field, as
    [messageEventToString] does with [msg]; appending argument lists appends
    the results; the length is the sum of the lengths. *)
Theorem buildString_concatenates (xs ys : list string) :
  buildString (buildString xs :: ys) = buildString (xs ++ ys) /\
  buildString (xs ++ ys) = buildString xs +:+ buildString ys /\
  String.length (buildString xs) = sum_list (String.length <$> xs).
Proof.
  split; [|split].
  - apply bytes_inj. rewrite !buildString_bytes, fmap_cons, fmap_app, concat_app. simpl.
    by rewrite buildString_bytes.
  - apply bytes_inj. by rewrite bytes_app, !buildString_bytes, fmap_app, concat_app.
  - rewrite <- bytes_length, buildString_bytes.
    induction xs as [|x xs IH]; [done|].
    rewrite !fmap_cons. simpl. by rewrite length_app, IH, bytes_length.
Qed.

Lemma messageEventToString_bytes (ev : EventsourceGo.MessageEvent) :
  list_ascii_of_string (messageEventToString ev) =
  (if bool_decide (EventsourceGo.ev_LastEventID ev = "") then []
   else list_ascii_of_string "id: " ++
        list_ascii_of_string (EventsourceGo.ev_LastEventID ev) ++ [nl]) ++
  (if bool_decide (EventsourceGo.ev_Name ev = "") then []
   else list_ascii_of_string "event: " ++
        list_ascii_of_string (EventsourceGo.ev_Name ev) ++ [nl]) ++
  list_ascii_of_string "data: " ++ list_ascii_of_string (EventsourceGo.ev_Data ev) ++ [nl; nl].
Proof.
  unfold messageEventToString.
  rewrite buildString_bytes, !fmap_cons, fmap_nil. cbn [concat].
  rewrite app_nil_r, bytes_app.
  change (list_ascii_of_string newline) with [nl].
  assert (Hid : list_ascii_of_string
                  (if bool_decide (EventsourceGo.ev_LastEventID ev = "") then ""
                   else buildString ["id: "; EventsourceGo.ev_LastEventID ev; newline]) =
                if bool_decide (EventsourceGo.ev_LastEventID ev = "") then []
                else list_ascii_of_string "id: " ++
                     list_ascii_of_string (EventsourceGo.ev_LastEventID ev) ++ [nl]).
  { destruct (bool_decide _); [done|].
    rewrite buildString_bytes, !fmap_cons, fmap_nil. cbn [concat].
    by rewrite app_nil_r. }
  destruct (bool_decide (EventsourceGo.ev_Name ev = "")).
  - by rewrite Hid.
  - rewrite buildString_bytes, !fmap_cons, fmap_nil. cbn [concat].
    rewrite Hid, app_nil_r. change (list_ascii_of_string newline) with [nl].
    by rewrite <- !app_assoc.
Qed.

Lemma split_at_newline (a : list ascii) : forall a' r r',
  nl ∉ a -> nl ∉ a' -> a ++ nl :: r = a' ++ nl :: r' -> a = a' /\ r = r'.
Proof.
  induction a as [|c a IH]; intros [|c' a'] r r' Ha Ha' H; simpl in *.
  - by simplify_eq.
  - injection H as <- _. by apply not_elem_of_cons in Ha' as [? _].
  - injection H as -> _. by apply not_elem_of_cons in Ha as [? _].
  - injection H as -> H.
    apply not_elem_of_cons in Ha as [_ Ha]. apply not_elem_of_cons in Ha' as [_ Ha'].
    by destruct (IH a' r r' Ha Ha' H) as [-> ->].
Qed.

(** X15: [messageEventToString] loses nothing when the id and the name fit
    on one line: two events with such ids and names and the same wire text
    are the same event (the data may hold anything). *)
Theorem messageEventToString_injective_on_lines (ev1 ev2 : EventsourceGo.MessageEvent) :
  one_line (EventsourceGo.ev_LastEventID ev1) -> one_line (EventsourceGo.ev_Name ev1) ->
  one_line (EventsourceGo.ev_LastEventID ev2) -> one_line (EventsourceGo.ev_Name ev2) ->
  messageEventToString ev1 = messageEventToString ev2 ->
  ev1 = ev2.
Proof.
  unfold one_line.
  destruct ev1 as [i1 n1 d1], ev2 as [i2 n2 d2]; simpl.
  intros Hi1 Hn1 Hi2 Hn2 H.
  apply (f_equal list_ascii_of_string) in H.
  rewrite !messageEventToString_bytes in H. simpl in H.
  assert (Hrest : forall n1 n2 d1 d2,
            nl ∉ list_ascii_of_string n1 -> nl ∉ list_ascii_of_string n2 ->
            (if bool_decide (n1 = "") then []
             else list_ascii_of_string "event: " ++ list_ascii_of_string n1 ++ [nl]) ++
            list_ascii_of_string "data: " ++ list_ascii_of_string d1 ++ [nl; nl] =
            (if bool_decide (n2 = "") then []
             else list_ascii_of_string "event: " ++ list_ascii_of_string n2 ++ [nl]) ++
            list_ascii_of_string "data: " ++ list_ascii_of_string d2 ++ [nl; nl] ->
            n1 = n2 /\ d1 = d2).
  { clear. intros n1 n2 d1 d2 Hn1 Hn2 H.
    destruct (bool_decide_reflect (n1 = "")) as [->|N1];
      destruct (bool_decide_reflect (n2 = "")) as [->|N2]; simpl in H.
    - injection H as H. apply app_inv_tail in H. split; [done | by apply bytes_inj].
    - discriminate H.
    - discriminate H.
    - injection H as H. rewrite <- !app_assoc in H. simpl in H.
      apply split_at_newline in H as [Hn Hd]; [|done..].
      simpl in Hd. injection Hd as Hd. apply app_inv_tail in Hd.
      split; by apply bytes_inj. }
  destruct (bool_decide_reflect (i1 = "")) as [->|I1];
    destruct (bool_decide_reflect (i2 = "")) as [->|I2]; simpl in H.
  - destruct (Hrest n1 n2 d1 d2 Hn1 Hn2 H) as [-> ->]. done.
  - destruct (bool_decide (n1 = "")); discriminate H.
  - destruct (bool_decide (n2 = "")); discriminate H.
  - injection H as H. rewrite <- !app_assoc in H. simpl in H.
    apply split_at_newline in H as [Hi Hr]; [|done..].
    apply bytes_inj in Hi as ->.
    destruct (Hrest n1 n2 d1 d2 Hn1 Hn2 Hr) as [-> ->]. done.
Qed.

Lemma messageEventToString_injective_on_lines_witness :
  SampleGo.hello =
  {| EventsourceGo.ev_LastEventID := "1"; EventsourceGo.ev_Name := "";
     EventsourceGo.ev_Data := "hel" +:+ "lo" |}.
Proof.
  assert (H1 : one_line "1").
  { unfold one_line. vm_compute. intros H.
    by repeat (apply elem_of_cons in H as [H|H]; [discriminate H|]);
      apply elem_of_nil in H. }
  assert (H0 : one_line "") by (unfold one_line; simpl; apply not_elem_of_nil).
  apply (messageEventToString_injective_on_lines SampleGo.hello
           {| EventsourceGo.ev_LastEventID := "1"; EventsourceGo.ev_Name := "";
              EventsourceGo.ev_Data := "hel" +:+ "lo" |} H1 H0 H1 H0).
  reflexivity.
Defined.

(** X16: [messageEventToString] writes its fields as they are.  An id that
    holds a line break followed by an event line gives the very text of the
    event whose name is on that line: two different events, one wire text. *)
Theorem messageEventToString_fields_verbatim (i n dd : string) :
  i <> "" -> n <> "" ->
  let plain := {| EventsourceGo.ev_LastEventID := i; EventsourceGo.ev_Name := n;
                  EventsourceGo.ev_Data := dd |} in
  let smuggled := {| EventsourceGo.ev_LastEventID := i +:+ newline +:+ "event: " +:+ n;
                     EventsourceGo.ev_Name := ""; EventsourceGo.ev_Data := dd |} in
  plain <> smuggled /\
  messageEventToString plain = messageEventToString smuggled.
Proof.
  intros Hi Hn plain smuggled. split.
  - intros [= _ H]. done.
  - apply bytes_inj. rewrite !messageEventToString_bytes. unfold plain, smuggled. simpl.
    rewrite (bool_decide_eq_false_2 (i = "")) by done.
    rewrite (bool_decide_eq_false_2 (n = "")) by done.
    rewrite bool_decide_eq_false_2 by (by destruct i).
    rewrite !bytes_app. simpl. rewrite <- !app_assoc. simpl. reflexivity.
Qed.

Lemma messageEventToString_fields_verbatim_witness :
  messageEventToString
    {| EventsourceGo.ev_LastEventID := "1"; EventsourceGo.ev_Name := "tick";
       EventsourceGo.ev_Data := "x" |} =
  messageEventToString
    {| EventsourceGo.ev_LastEventID := "1" +:+ newline +:+ "event: " +:+ "tick";
       EventsourceGo.ev_Name := ""; EventsourceGo.ev_Data := "x" |}.
Proof.
  apply (messageEventToString_fields_verbatim "1" "tick" "x"); discriminate.
Defined.

(** X17: [retryEventToString] loses nothing: two retry events with the same
    wire text have the same delay. *)
Theorem retryEventToString_injective (ev1 ev2 : retryEvent) :
  retryEventToString ev1 = retryEventToString ev2 -> ev1 = ev2.
Proof.
  destruct ev1 as [n1], ev2 as [n2]. unfold retryEventToString. simpl. intros H.
  apply (f_equal list_ascii_of_string) in H.
  rewrite !buildString_bytes, !fmap_cons, fmap_nil in H. cbn [concat] in H.
  apply app_inv_head in H. apply app_inv_tail in H.
  apply bytes_inj in H. unfold Sprintf_d in H. by apply (inj pretty) in H as ->.
Qed.

Lemma retryEventToString_injective_witness :
  newRetryEvent 250 = {| delayInMs := 125 + 125 |}.
Proof.
  apply (retryEventToString_injective (newRetryEvent 250) {| delayInMs := 125 + 125 |}).
  reflexivity.
Defined.

Example retryEventToString_sample :
  retryEventToString (newRetryEvent 250) = "retry: 250" +:+ newline /\
  retryEventToString (newRetryEvent (-3)) = "retry: -3" +:+ newline /\
  retryEventToString (newRetryEvent 0) = "retry: 0" +:+ newline.
Proof. repeat split; vm_compute; reflexivity. Qed.

Lemma fill_e_seq (l : list ascii) : forall k,
  fill_e (seq k (length l)) (replicate k "e"%char ++ l) =
  replicate (k + length l) "e"%char.
Proof.
  induction l as [|x l IH]; intros k; simpl.
  - by rewrite app_nil_r, Nat.add_0_r.
  - rewrite insert_app_r_alt by (by rewrite length_replicate).
    rewrite length_replicate, Nat.sub_diag. simpl.
    replace (replicate k "e"%char ++ "e"%char :: l)
      with (replicate (S k) "e"%char ++ l)
      by (by rewrite replicate_S_end, <- app_assoc).
    rewrite IH. f_equal. lia.
Qed.

(** X18: [newMessageEvent] panics on a negative size; for a size [n >= 0] it
    returns the event with the given id and name whose data is exactly [n]
    bytes long, every one of them the letter e. *)
Theorem newMessageEvent_data (id name : string) (n : Z) :
  (n < 0 -> newMessageEvent id name n = None) /\
  (0 <= n ->
   exists ev,
     newMessageEvent id name n = Some ev /\
     EventsourceGo.ev_LastEventID ev = id /\ EventsourceGo.ev_Name ev = name /\
     String.length (EventsourceGo.ev_Data ev) = Z.to_nat n /\
     Forall (fun c => c = "e"%char) (list_ascii_of_string (EventsourceGo.ev_Data ev))).
Proof.
  unfold newMessageEvent, make_bytes. split; intros H.
  - by rewrite bool_decide_eq_false_2 by lia.
  - rewrite bool_decide_eq_true_2 by done. simpl. eexists. split; [done|]. simpl.
    pose proof (fill_e_seq (replicate (Z.to_nat n) Ascii.zero) 0) as Hfill.
    simpl in Hfill. rewrite Hfill, length_replicate.
    rewrite <- bytes_length, list_ascii_of_string_of_list_ascii, length_replicate.
    repeat split. by apply Forall_replicate.
Qed.

Lemma newMessageEvent_data_witness :
  newMessageEvent "7" "tick" (-1) = None /\
  exists ev,
    newMessageEvent "7" "tick" 3 = Some ev /\
    EventsourceGo.ev_LastEventID ev = "7" /\ EventsourceGo.ev_Name ev = "tick" /\
    String.length (EventsourceGo.ev_Data ev) = Z.to_nat 3 /\
    Forall (fun c => c = "e"%char) (list_ascii_of_string (EventsourceGo.ev_Data ev)).
Proof.
  split.
  - apply (newMessageEvent_data "7" "tick" (-1)). lia.
  - apply (newMessageEvent_data "7" "tick" 3). lia.
Defined.

(** ** What [reconnect] returns, and the id over a whole run *)

Lemma Close_keeps_resp es : resp (state_of (Close es)) = resp es.
Proof.
  apply (Close_keeps (fun s => resp s = resp es)); try done.
  - intros x s. unfold setReadyState. by destruct (bool_decide _).
  - intros s. unfold acquireClosingRight. by destruct (_ || _).
Qed.

(** X19: [reconnect] returns only on a terminal classification.  An error it
    returns is the content-type error, or else the last response had status
    204 and the error is not the unexpected EOF; when it returns nil the last
    response had status 204. *)
Theorem reconnect_returns_only_terminal
    (script : list (HttpOutcome Decoder)) (es es' : eventSource)
    (e : option error) (t : list (effect Event)) :
  reconnect script es = Returned e es' t ->
  match e with
  | Some err =>
    err = ErrContentType \/
    (last_status (resp es') = Some StatusNoContent /\ err <> ErrUnexpectedEOF)
  | None => last_status (resp es') = Some StatusNoContent
  end.
Proof.
  unfold reconnect. rewrite bind_run. simpl. rewrite prepend_nil, bind_run.
  destruct (reconnect_loop script None (setReadyState Connecting es))
    as [e1 es1 t1|es1 t1|es1 t1] eqn:Hloop; [|done..].
  apply reconnect_loop_returns_terminal in Hloop.
  assert (Hcls : forall err, mustReconnect es1 (Some err) = false ->
            err = ErrContentType \/
            (last_status (resp es1) = Some StatusNoContent /\ err <> ErrUnexpectedEOF)).
  { intros err. unfold mustReconnect, last_status.
    destruct err; try done; auto;
      destruct (resp es1) as [r|]; try done; simpl;
      destruct (bool_decide_reflect (StatusCode r = StatusNoContent)) as [->|]; try done;
      intros _; right; by split. }
  destruct e1 as [err|]; simpl.
  - rewrite bind_run. pose proof (Close_keeps_resp es1) as Hresp.
    destruct (Close es1) as [[] es2 t2|es2 t2|es2 t2]; simpl in *; [|done..].
    intros [= <- <- <-]. rewrite Hresp. by apply Hcls.
  - intros [= <- <- <-]. revert Hloop. unfold mustReconnect, last_status.
    destruct (resp es1) as [r|]; [|done]. simpl.
    by destruct (bool_decide_reflect (StatusCode r = StatusNoContent)) as [->|].
Qed.

Lemma reconnect_returns_only_terminal_witness :
  ErrContentType = ErrContentType \/
  (last_status (resp (state_of (reconnect [DoReturns Sample.plain200] Sample.opened)))
     = Some StatusNoContent /\ ErrContentType <> ErrUnexpectedEOF).
Proof.
  apply (reconnect_returns_only_terminal [DoReturns Sample.plain200] Sample.opened
           (state_of (reconnect [DoReturns Sample.plain200] Sample.opened))
           (Some ErrContentType)
           (trace_of (reconnect [DoReturns Sample.plain200] Sample.opened))).
  reflexivity.
Defined.

(** X20: when a run of [consume] on an open channel stops, [LastEventID()] is
    the id of the last Message of the stream that had a non-empty id, and the
    old id when the stream had no such Message; retry directives, Messages
    without id, the reconnection and the teardown leave it alone. *)
Theorem LastEventID_after_run
    (dec : Decoder) (script : list (HttpOutcome Decoder)) (es : eventSource) :
  d es = Some dec ->
  outClosed es = false ->
  LastEventID (state_of (consume script es)) = last_id (events dec) (LastEventID es).
Proof.
  intros Hd Hopen. unfold consume. rewrite bind_run. simpl. rewrite Hd, prepend_nil.
  by apply consume_loop_lastEventID.
Qed.

Lemma LastEventID_after_run_witness :
  LastEventID
    (state_of (consume [DoReturns Sample.plain200]
       (with_d (Some {| events := [Sample.hello; Sample.retry250; Sample.anonymous];
                        ending := ErrUnexpectedEOF |}) Sample.opened))) = "1".
Proof.
  apply (LastEventID_after_run
           {| events := [Sample.hello; Sample.retry250; Sample.anonymous];
              ending := ErrUnexpectedEOF |}); reflexivity.
Defined.

(** ** The loop of [reconnect] in src/eventsource.go *)

Lemma EventsourceGo_reconnect_loop_nil err es :
  EventsourceGo.reconnect_loop [] err es =
  if EventsourceGo.mustReconnect es err then
    match EventsourceGo.d es with
    | Some dec => Pending es [Sleep (Duration_mul (EventsourceGo.Retry dec) Millisecond)]
    | None => Panicked es []
    end
  else Returned err es [].
Proof.
  simpl. rewrite bind_run. simpl.
  destruct (EventsourceGo.mustReconnect es err); [|done].
  by destruct (EventsourceGo.d es).
Qed.

Lemma EventsourceGo_connectOnce_accepts (r : Response EventsourceGo.Decoder) es :
  Header_Get "Content-Type" (Header r) = AllowedContentType ->
  EventsourceGo.connectOnce (DoReturns r) es =
    Returned None
      (EventsourceGo.with_d (Some (EventsourceGo.NewDecoder (Body r)))
         (EventsourceGo.setReadyState Open (EventsourceGo.with_resp (Some r) es)))
      [Request "GET" (EventsourceGo.url es) (EventsourceGo.request_header es); GoConsume].
Proof.
  intros H. unfold EventsourceGo.connectOnce, EventsourceGo.doHTTPConnect.
  rewrite !bind_run. simpl. rewrite bool_decide_eq_true_2 by done.
  destruct es as [u lid dec r0 closed rs]. by destruct rs.
Qed.

Lemma EventsourceGo_mustReconnect_nil_true es :
  last_status (EventsourceGo.resp es) <> Some StatusNoContent ->
  EventsourceGo.mustReconnect es None = true.
Proof.
  unfold EventsourceGo.mustReconnect, last_status.
  destruct (EventsourceGo.resp es) as [r|]; [|done]. simpl.
  intros H. rewrite bool_decide_eq_false_2; [done | congruence].
Qed.

(** X21: the loop of [reconnect] in src/eventsource.go behaves alike: on a
    source with a decoder, as long as the responses are accepted with a status
    other than 204 it does not return; for [n] such responses it starts [n]
    decode goroutines and releases no body. *)
Theorem EventsourceGo_accepted_responses_keep_looping
    (rs : list (Response EventsourceGo.Decoder)) (es : EventsourceGo.EventSource) :
  Forall keeps_going rs ->
  is_Some (EventsourceGo.d es) ->
  last_status (EventsourceGo.resp es) <> Some StatusNoContent ->
  exists es' t,
    EventsourceGo.reconnect_loop (DoReturns <$> rs) None es = Pending es' t /\
    count_where is_GoConsume t = length rs /\
    count_where is_BodyClose t = 0%nat.
Proof.
  intros Hrs. revert es. induction Hrs as [|r rs [Hct Hst] _ IH]; intros es [dec Hd] Hes.
  - rewrite fmap_nil, EventsourceGo_reconnect_loop_nil,
      EventsourceGo_mustReconnect_nil_true, Hd by done.
    by eexists _, _.
  - rewrite fmap_cons, EventsourceGo_reconnect_loop_cons,
      EventsourceGo_mustReconnect_nil_true, Hd by done.
    rewrite bind_run, EventsourceGo_connectOnce_accepts by done.
    set (es1 := EventsourceGo.with_d _ _).
    destruct (IH es1) as (es' & t & -> & Hgo & Hbody).
    { by eexists. }
    { unfold es1, last_status, EventsourceGo.setReadyState. simpl.
      destruct (bool_decide _); simpl; congruence. }
    eexists _, _. split; [reflexivity|].
    simpl. unfold count_where in *. simpl. by rewrite Hgo, Hbody.
Qed.

Lemma EventsourceGo_accepted_responses_keep_looping_witness :
  exists es' t,
    EventsourceGo.reconnect_loop (DoReturns <$> [SampleGo.stream200; SampleGo.stream200])
      None SampleGo.streaming = Pending es' t /\
    count_where is_GoConsume t = 2%nat /\
    count_where is_BodyClose t = 0%nat.
Proof.
  apply (EventsourceGo_accepted_responses_keep_looping
           [SampleGo.stream200; SampleGo.stream200] SampleGo.streaming).
  - repeat constructor; discriminate.
  - by eexists.
  - discriminate.
Defined.
